(** * Resume / job-match / interview-prep lifecycle of the Backend

    Shallow embedding of the Express handlers of
    [src/Backend/src/Controllers/interview_controller.ts] and
    [src/Backend/src/Controllers/job_controller.ts], of the Mongoose pre-save
    middleware of [src/Backend/src/db/models/InterviewPrep.ts] and
    [src/Backend/src/db/models/User.ts], and of the scoring code of the job
    matcher service.

    Conventions of the model:
    - a MongoDB collection is a [list] of records, a query filter a boolean
      function, [updateMany] a [map];
    - [new Date()] is an explicit [now : nat] argument;
    - a handler returns [Ok] with the new store, or [Err] with the HTTP status
      it answers with; an [Err] leaves the store as the handler had written it
      so far (Mongoose writes are not rolled back);
    - JS [undefined] is [None]. *)

From Stdlib Require Import String Floats ZArith QArith Qminmax Bool.
From Stdlib Require Import List Arith Lia Permutation Sorted.
Import ListNotations.
Open Scope nat_scope.

Inductive result (A : Type) : Type :=
| Ok (a : A)
| Err (status : nat) (a : A).
Arguments Ok {A} a.
Arguments Err {A} status a.

(** ** Structured resume data and [reanalyzeResume] *)
Module ResumeData.

(** [experienceSchema] / [educationSchema], restricted to the required
    fields and one optional one. *)
Record Experience := mkExp {
  ex_company : string;
  ex_role : string;
  ex_description : option string
}.

Record Education := mkEdu {
  ed_institution : string;
  ed_degree : option string
}.

(** The [StructuredResume] object the analyzer returns (parsed model JSON):
    any field may be [undefined]. *)
Record StructuredResume := mkSR {
  sr_name : option string;
  sr_summary : option string;
  sr_skills : option (list string);
  sr_experience : option (list Experience);
  sr_education : option (list Education)
}.

(** The stored [structuredResumeSchema] subdocument. *)
Record StructuredDoc := mkSD {
  sd_name : string;
  sd_summary : option string;
  sd_skills : list string;
  sd_experience : list Experience;
  sd_education : list Education
}.

(** A [parsed_resumes] row, with the denormalized top-level copies. *)
Record ResumeDoc := mkRD {
  rd_id : nat;
  rd_userId : nat;
  rd_rawText : string;
  rd_structuredJson : option StructuredDoc;
  rd_skills : list string;
  rd_experience : list Experience;
  rd_education : list Education
}.

(** JS [x || []] on an array or [undefined]: an array, even empty, is truthy. *)
Definition or_empty {A} (x : option (list A)) : list A :=
  match x with Some l => l | None => [] end.

(** Mongoose casting of the object assigned to [resume.structuredJson]:
    [name] has default ['Unknown'], array paths default to [[]]. *)
Definition cast_structured (sr : StructuredResume) : StructuredDoc :=
  mkSD (match sr_name sr with Some n => n | None => "Unknown"%string end)
       (sr_summary sr) (or_empty (sr_skills sr))
       (or_empty (sr_experience sr)) (or_empty (sr_education sr)).

(** [required: true] on a String rejects [''] as well. *)
Definition nonempty (s : string) : bool := negb (String.eqb s "").

Definition valid_experience (e : Experience) : bool :=
  nonempty (ex_company e) && nonempty (ex_role e).

Definition valid_education (e : Education) : bool := nonempty (ed_institution e).

(** The validators Mongoose runs in [resume.save()]. *)
Definition valid_resume (r : ResumeDoc) : bool :=
  forallb valid_experience (rd_experience r) && forallb valid_education (rd_education r) &&
  match rd_structuredJson r with
  | Some sd => forallb valid_experience (sd_experience sd) && forallb valid_education (sd_education sd)
  | None => true
  end.

Section Analyzer.
(** The regex helpers of the resume analyzer service. *)
Variable extractName : string -> option string.
Variable extractSummary : string -> option string.
Variable extractSkills : string -> list string.
Variable extractExperience : string -> list Experience.
Variable extractEducation : string -> list Education.

(** JS truthiness of an optional string. *)
Definition truthy_str (o : option string) : bool :=
  match o with Some s => nonempty s | None => false end.

Definition fallbackParser (rawText : string) : StructuredResume :=
  mkSR (Some (match extractName rawText with
              | Some n => if nonempty n then n else "Unknown"%string
              | None => "Unknown"%string end))
       (extractSummary rawText) (Some (extractSkills rawText))
       (Some (extractExperience rawText)) (Some (extractEducation rawText)).

(** [analyzeResume]: [llm] is the parsed model response, [None] when the
    model call or [JSON.parse] throws. *)
Definition analyzeResume (llm : option StructuredResume) (rawText : string) : StructuredResume :=
  match llm with
  | None => fallbackParser rawText
  | Some d =>
      let name := if truthy_str (sr_name d) then sr_name d
                  else Some (match extractName rawText with
                             | Some n => if nonempty n then n else "Unknown"%string
                             | None => "Unknown"%string end) in
      let skills := match sr_skills d with
                    | None | Some [] => Some (extractSkills rawText)
                    | Some l => Some l end in
      let experience := match sr_experience d with None => Some [] | e => e end in
      let education := match sr_education d with None => Some [] | e => e end in
      mkSR name (sr_summary d) skills experience education
  end.

(** The update [reanalyzeResume] makes to the document: [structuredJson]
    and the three denormalized arrays, from the same analyzer result. *)
Definition replace_structured (sr : StructuredResume) (r : ResumeDoc) : ResumeDoc :=
  mkRD (rd_id r) (rd_userId r) (rd_rawText r) (Some (cast_structured sr))
       (or_empty (sr_skills sr)) (or_empty (sr_experience sr)) (or_empty (sr_education sr)).

Definition owned (uid id : nat) (r : ResumeDoc) : bool := (rd_id r =? id) && (rd_userId r =? uid).

Definition find_resume (uid id : nat) (rs : list ResumeDoc) : option ResumeDoc :=
  find (owned uid id) rs.

(** [reanalyzeResume]: [llm] is the model's answer for the stored raw text. *)
Definition reanalyzeResume (userId : option nat) (id : nat) (llm : option StructuredResume)
    (rs : list ResumeDoc) : result (list ResumeDoc) :=
  match userId with
  | None => Err 401 rs
  | Some uid =>
      match find_resume uid id rs with
      | None => Err 404 rs
      | Some r =>
          let r' := replace_structured (analyzeResume llm (rd_rawText r)) r in
          if valid_resume r'
          then Ok (map (fun x => if owned uid id x then r' else x) rs)
          else Err 500 rs
      end
  end.
End Analyzer.

(** What [getResume] returns of a row: [structured_json], [skills],
    [experience], [education]. *)
Definition read_resume (r : ResumeDoc)
  : option StructuredDoc * list string * list Experience * list Education :=
  (rd_structuredJson r, rd_skills r, rd_experience r, rd_education r).

End ResumeData.

(** ** Resumes and users *)
Module Resume.
Import ResumeData.

(** One row of the [parsed_resumes] collection, restricted to the fields the
    active-resume lifecycle reads and writes. *)
Record ParsedResume := mkResume {
  r_id : nat;
  r_userId : nat;
  r_isActive : bool
}.

(** One row of the [users] collection: its id and [activeResumeId]. *)
Record User := mkUser {
  u_id : nat;
  u_activeResumeId : option nat
}.

Record Store := mkStore {
  resumes : list ParsedResume;
  users : list User;
  next_id : nat   (* the ObjectId the next [create] hands out *)
}.

(** What [uploadResume] computes before it writes, as far as the validators
    of [ParsedResume.create] read it: [parsedPDF.text] and the subdocument
    arrays of [structuredResume] (projects by their [name], certifications by
    their [name] and [issuer]). *)
Record UploadInput := mkUpload {
  ui_rawText : string;
  ui_experience : list Experience;
  ui_education : list Education;
  ui_projects : list string;
  ui_certifications : list (string * string)
}.

(** The validators [ParsedResume.create] runs: [rawText] is required, and so
    are [company] and [role] of an experience entry, [institution] of an
    education entry, [name] of a project, [name] and [issuer] of a
    certification. *)
Definition valid_upload (d : UploadInput) : bool :=
  nonempty (ui_rawText d) &&
  forallb valid_experience (ui_experience d) &&
  forallb valid_education (ui_education d) &&
  forallb nonempty (ui_projects d) &&
  forallb (fun c => nonempty (fst c) && nonempty (snd c)) (ui_certifications d).

(** [ParsedResume.updateMany({ userId, isActive: true }, { isActive: false })] *)
Definition deactivate_all (userId : nat) (rs : list ParsedResume) : list ParsedResume :=
  map (fun r => if (r_userId r =? userId) && r_isActive r
                then mkResume (r_id r) (r_userId r) false
                else r) rs.

(** [ParsedResume.create({ userId, ..., isActive: true })]: the new row and
    its id. *)
Definition create_resume (userId : nat) (s : Store) : Store * nat :=
  (mkStore (resumes s ++ [mkResume (next_id s) userId true]) (users s) (S (next_id s)),
   next_id s).

(** [User.findByIdAndUpdate(userId, { activeResumeId })]: no effect when no
    user has that id. *)
Definition set_active_resume (userId rid : nat) (us : list User) : list User :=
  map (fun u => if u_id u =? userId then mkUser (u_id u) (Some rid) else u) us.

(** The three writes of [uploadResume], each one [await]ed on its own. *)

(** 4. Deactivate previous resumes for this user *)
Definition upload_deactivate (uid : nat) (s : Store) : Store :=
  mkStore (deactivate_all uid (resumes s)) (users s) (next_id s).

(** 5. Save to ParsedResume collection: [None] when validation throws. *)
Definition upload_create (uid : nat) (d : UploadInput) (s : Store) : option (Store * nat) :=
  if valid_upload d then Some (create_resume uid s) else None.

(** 6. Update user's active resume reference *)
Definition upload_link (uid rid : nat) (s : Store) : Store :=
  mkStore (resumes s) (set_active_resume uid rid (users s)) (next_id s).

(** [uploadResume]. [userId] is [req.user?.id], [has_file] whether
    [req.file] is present, [parsed] what steps 1-3 (GridFS upload, PDF
    parse, analysis) produce, [None] when one of them throws. Those steps do
    not touch these collections; any exception is caught and answered with
    [500]. *)
Definition uploadResume (userId : option nat) (has_file : bool) (parsed : option UploadInput)
    (s : Store) : result Store :=
  match userId with
  | None => Err 401 s
  | Some uid =>
      if negb has_file then Err 400 s
      else
        match parsed with
        | None => Err 500 s
        | Some d =>
            let s1 := upload_deactivate uid s in
            match upload_create uid d s1 with
            | None => Err 500 s1
            | Some (s2, rid) => Ok (upload_link uid rid s2)
            end
        end
  end.

(** *** Concurrent uploads

    Node runs one handler between two [await]s at a time, and the handlers
    of concurrent requests interleave at the [await]s. An upload in flight
    is at one of the points between its writes; a schedule lists which
    upload takes its next write. *)
Inductive Stage :=
| Start                (* before [updateMany] *)
| Deactivated          (* after [updateMany] *)
| Created (rid : nat)  (* after [create] *)
| Done                 (* after [findByIdAndUpdate] *)
| Failed.              (* [create] threw: [500] *)

Record Upload := mkUp {
  up_user : nat;
  up_input : UploadInput;
  up_stage : Stage
}.

Definition step_upload (t : Upload) (s : Store) : Upload * Store :=
  match up_stage t with
  | Start => (mkUp (up_user t) (up_input t) Deactivated, upload_deactivate (up_user t) s)
  | Deactivated =>
      match upload_create (up_user t) (up_input t) s with
      | None => (mkUp (up_user t) (up_input t) Failed, s)
      | Some (s', rid) => (mkUp (up_user t) (up_input t) (Created rid), s')
      end
  | Created rid => (mkUp (up_user t) (up_input t) Done, upload_link (up_user t) rid s)
  | Done | Failed => (t, s)
  end.

Fixpoint replace_nth {A} (i : nat) (x : A) (l : list A) : list A :=
  match l, i with
  | [], _ => []
  | _ :: l', 0 => x :: l'
  | y :: l', S i' => y :: replace_nth i' x l'
  end.

Fixpoint run_schedule (sched : list nat) (ts : list Upload) (s : Store) : list Upload * Store :=
  match sched with
  | [] => (ts, s)
  | i :: sched' =>
      match nth_error ts i with
      | None => run_schedule sched' ts s
      | Some t => let '(t', s') := step_upload t s in run_schedule sched' (replace_nth i t' ts) s'
      end
  end.

(** The resumes of [u] with [isActive = true]. *)
Definition active_of (u : nat) (s : Store) : list ParsedResume :=
  filter (fun r => (r_userId r =? u) && r_isActive r) (resumes s).

Definition count_active (u : nat) (s : Store) : nat := length (active_of u s).

Definition find_user (u : nat) (s : Store) : option User :=
  find (fun x => u_id x =? u) (users s).

Definition empty_store (us : list User) : Store := mkStore [] us 0.

(** [ParsedResume.findOne({ userId, isActive: true })]. *)
Definition find_active (u : nat) (s : Store) : option ParsedResume :=
  find (fun r => (r_userId r =? u) && r_isActive r) (resumes s).

(** [getResume]: the active resume of the user, [404] when there is none. *)
Definition getResume (userId : option nat) (s : Store) : result (option ParsedResume) :=
  match userId with
  | None => Err 401 None
  | Some uid =>
      match find_active uid s with
      | None => Err 404 None
      | Some r => Ok (Some r)
      end
  end.

(** [ParsedResume.deleteOne({ _id: id })]: removes the first row with that id. *)
Fixpoint delete_first (id : nat) (rs : list ParsedResume) : list ParsedResume :=
  match rs with
  | [] => []
  | r :: rs' => if r_id r =? id then rs' else r :: delete_first id rs'
  end.

(** [User.findByIdAndUpdate(userId, { activeResumeId: null })]. *)
Definition clear_active_resume (userId : nat) (us : list User) : list User :=
  map (fun u => if u_id u =? userId then mkUser (u_id u) None else u) us.

(** [deleteResume]. The GridFS deletion (its errors are caught and logged)
    does not touch these collections. *)
Definition deleteResume (userId : option nat) (id : nat) (s : Store) : result Store :=
  match userId with
  | None => Err 401 s
  | Some uid =>
      match find (fun r => (r_id r =? id) && (r_userId r =? uid)) (resumes s) with
      | None => Err 404 s
      | Some r =>
          (* Delete the resume document *)
          let s1 := mkStore (delete_first id (resumes s)) (users s) (next_id s) in
          (* If this was the active resume, clear user's activeResumeId *)
          if r_isActive r
          then Ok (mkStore (resumes s1) (clear_active_resume uid (users s1)) (next_id s1))
          else Ok s1
      end
  end.

(** The resume endpoints that write, as requests handled one after the
    other: an upload with a file by a user (with what steps 1-3 produced),
    and a deletion of a resume id by a user. *)
Inductive ResumeRequest :=
| RUpload (userId : nat) (parsed : option UploadInput)
| RDelete (userId id : nat).

Definition handle_resume (rq : ResumeRequest) (s : Store) : Store :=
  match match rq with
        | RUpload u p => uploadResume (Some u) true p s
        | RDelete u id => deleteResume (Some u) id s
        end with
  | Ok s' => s'
  | Err _ s' => s'
  end.

Fixpoint run_resume (rqs : list ResumeRequest) (s : Store) : Store :=
  match rqs with
  | [] => s
  | rq :: rqs' => run_resume rqs' (handle_resume rq s)
  end.

(** The id discipline of the collection (distinct ids, all below the next
    one handed out), at most one active resume per user, and an active
    resume is the one its user's [activeResumeId] names. *)
Definition resume_inv (s : Store) : Prop :=
  NoDup (map r_id (resumes s)) /\
  Forall (fun r => r_id r < next_id s) (resumes s) /\
  (forall u, count_active u s <= 1) /\
  (forall u usr r, find_user u s = Some usr -> In r (active_of u s) ->
     u_activeResumeId usr = Some (r_id r)).

(** A parsed resume that passes validation, and one whose single experience
    entry has no company. *)
Definition sample_upload : UploadInput :=
  mkUpload "Jane Doe, Go developer" [mkExp "Acme" "Engineer" None] [] [] [].

Definition sample_upload_no_company : UploadInput :=
  mkUpload "Jane Doe, Go developer" [mkExp "" "Engineer" None] [] [] [].

End Resume.

(** ** Job matches *)
Module Job.

Inductive AppStatus := not_applied | applied | interviewing | offered | rejected | withdrawn.

Inductive Fit := excellent | good | moderate | low.

(** One row of [job_matches], restricted to the fields the handlers touch. *)
Record JobMatch := mkJM {
  jm_id : nat;
  jm_userId : nat;
  jm_jobTitle : string;
  jm_matchScore : Q;
  jm_overallFit : Fit;
  jm_applied : bool;
  jm_appliedDate : option nat;
  jm_applicationStatus : AppStatus;
  jm_applicationNotes : option string;
  jm_isSaved : bool;
  jm_isHidden : bool
}.

(** [user.analytics], keyed by the user id. *)
Record Analytics := mkAn {
  an_userId : nat;
  totalJobsDiscovered : nat;
  totalJobsApplied : nat;
  lastUpdated : option nat
}.

Record Store := mkStore {
  matches : list JobMatch;
  analytics : list Analytics;
  next_id : nat
}.

(** *** The matcher service *)

(** A [JobMatch] as [matchJob] returns it (title and score). *)
Record MatchResult := mkMR { mr_title : string; mr_score : Q }.

(** [matchJob]: [llm] is [None] when the model call or [JSON.parse] throws,
    otherwise [Some] of the parsed [matchScore] ([None] when absent).
    [Math.max(0, Math.min(100, matchData.matchScore || 0))]. *)
Definition matchJob (title : string) (llm : option (option Q)) : MatchResult :=
  match llm with
  | None => mkMR title 0%Q
  | Some parsed =>
      let raw := match parsed with Some q => q | None => 0%Q end in
      mkMR title (Qmax 0%Q (Qmin 100%Q raw))
  end.

(** [matches.sort((a, b) => b.matchScore - a.matchScore)]: a stable sort by
    decreasing score (insertion sort; Array.prototype.sort is stable). [m]
    comes from before the sorted rest [l], so it goes before the first
    element of [l] whose score is not greater than its own. *)
Fixpoint insert_desc (m : MatchResult) (l : list MatchResult) : list MatchResult :=
  match l with
  | [] => [m]
  | x :: l' => if Qlt_le_dec (mr_score m) (mr_score x) then x :: insert_desc m l' else m :: l
  end.

Fixpoint sort_desc (l : list MatchResult) : list MatchResult :=
  match l with
  | [] => []
  | m :: l' => insert_desc m (sort_desc l')
  end.

(** [matchMultipleJobs]. *)
Definition matchMultipleJobs (jobs : list (string * option (option Q))) : list MatchResult :=
  sort_desc (map (fun '(t, r) => matchJob t r) jobs).

(** The [overallFit] expression of [discoverJobs]. *)
Definition overallFit (s : Q) : Fit :=
  if Qle_bool 80 s then excellent
  else if Qle_bool 60 s then good
  else if Qle_bool 40 s then moderate
  else low.

(** [jobMatchSchema.matchScore]: [min: 0, max: 100]. *)
Definition valid_match (m : JobMatch) : bool :=
  Qle_bool 0 (jm_matchScore m) && Qle_bool (jm_matchScore m) 100.

(** *** Handlers *)

Definition bump_discovered (uid n now : nat) (an : list Analytics) : list Analytics :=
  map (fun a => if an_userId a =? uid
                then mkAn uid (totalJobsDiscovered a + n) (totalJobsApplied a) (Some now)
                else a) an.

Definition bump_applied (uid now : nat) (an : list Analytics) : list Analytics :=
  map (fun a => if an_userId a =? uid
                then mkAn uid (totalJobsDiscovered a) (S (totalJobsApplied a)) (Some now)
                else a) an.

(** The rows [discoverJobs] builds, ids handed out from [next]. *)
Fixpoint to_save (uid next : nat) (ms : list MatchResult) : list JobMatch :=
  match ms with
  | [] => []
  | m :: ms' =>
      mkJM next uid (mr_title m) (mr_score m) (overallFit (mr_score m))
           false None not_applied None false false
      :: to_save uid (S next) ms'
  end.

(** [discoverJobs]. [skills] is the active resume's skill list ([None]: no
    active resume); [jobs] the scraped postings, each with the model's answer
    for it. *)
Definition discoverJobs (now : nat) (userId : option nat) (skills : option (list string))
    (jobs : list (string * option (option Q))) (s : Store) : result Store :=
  match userId with
  | None => Err 401 s
  | Some uid =>
      match skills with
      | None => Err 404 s
      | Some [] => Err 400 s
      | Some _ =>
          match jobs with
          | [] => Ok s
          | _ =>
              let ms := matchMultipleJobs jobs in
              let rows := to_save uid (next_id s) (firstn 20 ms) in
              if forallb valid_match rows then
                Ok (mkStore (matches s ++ rows)
                            (bump_discovered uid (length ms) now (analytics s))
                            (next_id s + length rows))
              else Err 500 s
          end
      end
  end.

Definition owned (uid id : nat) (m : JobMatch) : bool := (jm_id m =? id) && (jm_userId m =? uid).

(** [JobMatch.findOneAndUpdate({ _id: id, userId }, update)]: the updated
    store and whether a row matched. *)
Definition find_one_and_update (uid id : nat) (f : JobMatch -> JobMatch) (s : Store)
    : option (list JobMatch) :=
  match find (owned uid id) (matches s) with
  | None => None
  | Some _ => Some (map (fun m => if owned uid id m then f m else m) (matches s))
  end.

(** The update document of [markAsApplied]; an [undefined] [notes] is
    dropped from the update. *)
Definition apply_update (now : nat) (notes : option string) (m : JobMatch) : JobMatch :=
  mkJM (jm_id m) (jm_userId m) (jm_jobTitle m) (jm_matchScore m) (jm_overallFit m)
       true (Some now) applied
       (match notes with Some n => Some n | None => jm_applicationNotes m end)
       (jm_isSaved m) (jm_isHidden m).

(** [markAsApplied]. *)
Definition markAsApplied (now : nat) (userId : option nat) (id : nat) (notes : option string)
    (s : Store) : result Store :=
  match userId with
  | None => Err 401 s
  | Some uid =>
      match find_one_and_update uid id (apply_update now notes) s with
      | None => Err 404 s
      | Some ms' =>
          (* Update user analytics *)
          Ok (mkStore ms' (bump_applied uid now (analytics s)) (next_id s))
      end
  end.

(** [updateApplicationStatus]; [status] is [None] for a string outside
    [validStatuses]. *)
Definition updateApplicationStatus (userId : option nat) (id : nat) (status : option AppStatus)
    (notes : option string) (s : Store) : result Store :=
  match userId with
  | None => Err 401 s
  | Some uid =>
      match status with
      | None => Err 400 s
      | Some st =>
          let f m := mkJM (jm_id m) (jm_userId m) (jm_jobTitle m) (jm_matchScore m)
                          (jm_overallFit m) (jm_applied m) (jm_appliedDate m) st
                          (* ...(notes && { applicationNotes: notes }) *)
                          (match notes with
                           | Some n => if String.eqb n "" then jm_applicationNotes m else Some n
                           | None => jm_applicationNotes m
                           end)
                          (jm_isSaved m) (jm_isHidden m) in
          match find_one_and_update uid id f s with
          | None => Err 404 s
          | Some ms' => Ok (mkStore ms' (analytics s) (next_id s))
          end
      end
  end.

(** [toggleSaveJob] and [hideJob]. *)
Definition set_flags (saved hidden : JobMatch -> bool) (m : JobMatch) : JobMatch :=
  mkJM (jm_id m) (jm_userId m) (jm_jobTitle m) (jm_matchScore m) (jm_overallFit m)
       (jm_applied m) (jm_appliedDate m) (jm_applicationStatus m) (jm_applicationNotes m)
       (saved m) (hidden m).

Definition toggleSaveJob (userId : option nat) (id : nat) (s : Store) : result Store :=
  match userId with
  | None => Err 401 s
  | Some uid =>
      match find_one_and_update uid id (set_flags (fun m => negb (jm_isSaved m)) jm_isHidden) s with
      | None => Err 404 s
      | Some ms' => Ok (mkStore ms' (analytics s) (next_id s))
      end
  end.

Definition hideJob (userId : option nat) (id : nat) (s : Store) : result Store :=
  match userId with
  | None => Err 401 s
  | Some uid =>
      match find_one_and_update uid id (set_flags jm_isSaved (fun _ => true)) s with
      | None => Err 404 s
      | Some ms' => Ok (mkStore ms' (analytics s) (next_id s))
      end
  end.

(** [jobMatchSchema.pre('save')]: the guarded path that stamps
    [appliedDate] only on the first transition of [applied] to true. *)
Definition jobMatch_pre_save (now : nat) (applied_modified : bool) (m : JobMatch) : JobMatch :=
  if applied_modified && jm_applied m && (match jm_appliedDate m with None => true | Some _ => false end)
  then mkJM (jm_id m) (jm_userId m) (jm_jobTitle m) (jm_matchScore m) (jm_overallFit m)
            (jm_applied m) (Some now) applied (jm_applicationNotes m) (jm_isSaved m) (jm_isHidden m)
  else m.

(** The job endpoints, as requests. *)
Inductive Request :=
| Discover (userId : option nat) (skills : option (list string)) (jobs : list (string * option (option Q)))
| Apply (userId : option nat) (id : nat) (notes : option string)
| SetStatus (userId : option nat) (id : nat) (status : option AppStatus) (notes : option string)
| ToggleSave (userId : option nat) (id : nat)
| Hide (userId : option nat) (id : nat).

Definition store_of (r : result Store) : Store :=
  match r with Ok s => s | Err _ s => s end.

Definition handle (now : nat) (rq : Request) (s : Store) : Store :=
  store_of
    match rq with
    | Discover u sk js => discoverJobs now u sk js s
    | Apply u id n => markAsApplied now u id n s
    | SetStatus u id st n => updateApplicationStatus u id st n s
    | ToggleSave u id => toggleSaveJob u id s
    | Hide u id => hideJob u id s
    end.

(** A run of timestamped requests. *)
Fixpoint run (rqs : list (nat * Request)) (s : Store) : Store :=
  match rqs with
  | [] => s
  | (now, rq) :: rqs' => run rqs' (handle now rq s)
  end.

Definition applied_count (uid : nat) (s : Store) : option nat :=
  option_map totalJobsApplied (find (fun a => an_userId a =? uid) (analytics s)).

Definition find_match (id : nat) (s : Store) : option JobMatch :=
  find (fun m => jm_id m =? id) (matches s).

(** *** [getJobMatches] *)

Definition string_of_status (a : AppStatus) : string :=
  match a with
  | not_applied => "not_applied" | applied => "applied" | interviewing => "interviewing"
  | offered => "offered" | rejected => "rejected" | withdrawn => "withdrawn"
  end.

(** [x === 'true'] on an optional query string. *)
Definition is_true_str (o : option string) : bool :=
  match o with Some x => String.eqb x "true" | None => false end.

(** The query [getJobMatches] builds. [status] is the [status] query string;
    [minScore] is [None] when the parameter is absent or empty (falsy), and
    otherwise [Some] of [Number(minScore)], [None] inside for [NaN]
    ([getJobMatches] fails before the filter is used). *)
Definition query_ok (uid : nat) (status saved hidden : option string)
    (minScore : option (option Q)) (m : JobMatch) : bool :=
  (jm_userId m =? uid) &&
  match status with
  | Some st => if String.eqb st "" || String.eqb st "all" then true
               else String.eqb (string_of_status (jm_applicationStatus m)) st
  | None => true
  end &&
  (if is_true_str saved then jm_isSaved m else true) &&
  (if is_true_str hidden then true else negb (jm_isHidden m)) &&
  match minScore with
  | None => true
  | Some None => false
  | Some (Some q) => Qle_bool q (jm_matchScore m)
  end.

(** [.sort({ matchScore: -1, createdAt: -1 })]: rows are created in id
    order, so [createdAt] descending is id descending. [sorts_before a b]:
    [a] comes first. *)
Definition sorts_before (a b : JobMatch) : bool :=
  if Qeq_bool (jm_matchScore a) (jm_matchScore b) then jm_id b <=? jm_id a
  else Qle_bool (jm_matchScore b) (jm_matchScore a).

Fixpoint insert_match (m : JobMatch) (l : list JobMatch) : list JobMatch :=
  match l with
  | [] => [m]
  | x :: l' => if sorts_before m x then m :: l else x :: insert_match m l'
  end.

Fixpoint sort_matches (l : list JobMatch) : list JobMatch :=
  match l with
  | [] => []
  | m :: l' => insert_match m (sort_matches l')
  end.

(** [getJobMatches]: the rows returned, before the field renaming. *)
Definition getJobMatches (userId : option nat) (status saved hidden : option string)
    (minScore : option (option Q)) (s : Store) : result (list JobMatch) :=
  match userId with
  | None => Err 401 []
  | Some uid =>
      match minScore with
      | Some None => Err 500 []  (* casting [$gte: NaN] to Number throws *)
      | _ => Ok (sort_matches (filter (query_ok uid status saved hidden minScore) (matches s)))
      end
  end.

(** The user a request is made by. *)
Definition req_user (rq : Request) : option nat :=
  match rq with
  | Discover u _ _ | Apply u _ _ | SetStatus u _ _ _ | ToggleSave u _ | Hide u _ => u
  end.

(** How a stored row may change under the handlers: its identity, title,
    score and fit stay; [applied], [isHidden] and a set [appliedDate] are
    never undone. *)
Definition evolves (m m' : JobMatch) : Prop :=
  jm_id m' = jm_id m /\ jm_userId m' = jm_userId m /\ jm_jobTitle m' = jm_jobTitle m /\
  jm_matchScore m' = jm_matchScore m /\ jm_overallFit m' = jm_overallFit m /\
  (jm_applied m = true -> jm_applied m' = true) /\
  (jm_isHidden m = true -> jm_isHidden m' = true) /\
  (jm_appliedDate m <> None -> jm_appliedDate m' <> None).

(** Orders used to state the sorting guarantees: non-increasing score. *)
Definition score_desc (a b : MatchResult) : Prop := (mr_score b <= mr_score a)%Q.
Definition score_desc_jm (a b : JobMatch) : Prop := (jm_matchScore b <= jm_matchScore a)%Q.

End Job.

(** ** Interview preparation *)
Module Interview.

Inductive QType := technical | behavioral | system_design | situational | coding.
Inductive Difficulty := easy | medium | hard.
Inductive Confidence := conf_low | conf_medium | conf_high.
Inductive PrepStatus := draft | generating | generated | in_progress | completed.

Definition status_eqb (a b : PrepStatus) : bool :=
  match a, b with
  | draft, draft | generating, generating | generated, generated
  | in_progress, in_progress | completed, completed => true
  | _, _ => false
  end.

(** [interviewQuestionSchema], without the free-text fields. *)
Record Question := mkQ {
  q_id : nat;
  q_type : QType;
  q_difficulty : Difficulty;
  q_practiced : bool;
  q_practicedCount : nat;
  q_confidenceLevel : option Confidence;
  q_userNotes : option string
}.

Record QuestionStats := mkStats {
  st_total : nat; st_technical : nat; st_behavioral : nat; st_systemDesign : nat;
  st_situational : nat; st_coding : nat; st_easy : nat; st_medium : nat; st_hard : nat
}.

Record Progress := mkProg {
  questionsCompleted : nat;
  totalQuestions : nat;
  percentComplete : Z;
  lastPracticedAt : option nat;
  totalPracticeTime : Z;
  averageConfidence : Z
}.

(** [practiceSessionSchema]; [averageConfidence] on the 0-100 integer scale. *)
Record Session := mkSess {
  sessionDate : nat;
  questionsAttempted : nat;
  duration : Z;
  ses_averageConfidence : Z
}.

Record Prep := mkPrep {
  p_id : nat;
  p_userId : nat;
  p_questions : list Question;
  p_stats : QuestionStats;
  p_status : PrepStatus;
  p_generatedAt : option nat;
  p_completedAt : option nat;
  p_progress : Progress;
  p_sessions : list Session
}.

(** Field setters, as the handlers assign them. *)
Definition set_questions (qs : list Question) (p : Prep) : Prep :=
  mkPrep (p_id p) (p_userId p) qs (p_stats p) (p_status p) (p_generatedAt p)
         (p_completedAt p) (p_progress p) (p_sessions p).
Definition set_stats (st : QuestionStats) (p : Prep) : Prep :=
  mkPrep (p_id p) (p_userId p) (p_questions p) st (p_status p) (p_generatedAt p)
         (p_completedAt p) (p_progress p) (p_sessions p).
Definition set_status (s : PrepStatus) (p : Prep) : Prep :=
  mkPrep (p_id p) (p_userId p) (p_questions p) (p_stats p) s (p_generatedAt p)
         (p_completedAt p) (p_progress p) (p_sessions p).
Definition set_generatedAt (t : option nat) (p : Prep) : Prep :=
  mkPrep (p_id p) (p_userId p) (p_questions p) (p_stats p) (p_status p) t
         (p_completedAt p) (p_progress p) (p_sessions p).
Definition set_completedAt (t : option nat) (p : Prep) : Prep :=
  mkPrep (p_id p) (p_userId p) (p_questions p) (p_stats p) (p_status p) (p_generatedAt p)
         t (p_progress p) (p_sessions p).
Definition set_progress (pr : Progress) (p : Prep) : Prep :=
  mkPrep (p_id p) (p_userId p) (p_questions p) (p_stats p) (p_status p) (p_generatedAt p)
         (p_completedAt p) pr (p_sessions p).
Definition set_sessions (ss : list Session) (p : Prep) : Prep :=
  mkPrep (p_id p) (p_userId p) (p_questions p) (p_stats p) (p_status p) (p_generatedAt p)
         (p_completedAt p) (p_progress p) ss.

Definition with_completion (c t : nat) (pct : Z) (pr : Progress) : Progress :=
  mkProg c t pct (lastPracticedAt pr) (totalPracticeTime pr) (averageConfidence pr).

(** *** JS numbers *)

(** A small non-negative integer as a JS number (exact below 2^53). *)
Definition js_num (n : nat) : float := PrimFloat.of_uint63 (Uint63.of_Z (Z.of_nat n)).

(** [Math.round] on a double in [[0, 100]]: the integer [k] with
    [k - 0.5 <= x < k + 0.5] (ties towards +infinity), computed by counting
    the half-integer thresholds [k - 0.5], [k = 1..100], that [x] reaches.
    The thresholds are exact doubles, so the comparisons are exact. *)
Definition Math_round_0_100 (x : float) : Z :=
  Z.of_nat (length (filter (fun k => PrimFloat.leb (js_num k - 0.5)%float x) (seq 1 100))).

(** [Math.round((completedCount / questions.length) * 100)], in doubles. *)
Definition js_percent (completed total : nat) : Z :=
  Math_round_0_100 ((js_num completed / js_num total) * 100)%float.

(** The exact percentage [round(100 * c / t)], ties upwards. *)
Definition exact_percent (c t : nat) : Z :=
  ((200 * Z.of_nat c + Z.of_nat t) / (2 * Z.of_nat t))%Z.

(** [Math.round(total / n)] for integers, ties upwards. *)
Definition round_div (total : Z) (n : nat) : Z := ((2 * total + Z.of_nat n) / (2 * Z.of_nat n))%Z.

(** *** Derived statistics *)

Definition count_by {A} (f : A -> bool) (l : list A) : nat := length (filter f l).

Definition is_type (t : QType) (q : Question) : bool :=
  match t, q_type q with
  | technical, technical | behavioral, behavioral | system_design, system_design
  | situational, situational | coding, coding => true
  | _, _ => false
  end.

Definition is_difficulty (d : Difficulty) (q : Question) : bool :=
  match d, q_difficulty q with
  | easy, easy | medium, medium | hard, hard => true
  | _, _ => false
  end.

Definition computeStats (qs : list Question) : QuestionStats :=
  mkStats (length qs) (count_by (is_type technical) qs) (count_by (is_type behavioral) qs)
          (count_by (is_type system_design) qs) (count_by (is_type situational) qs)
          (count_by (is_type coding) qs) (count_by (is_difficulty easy) qs)
          (count_by (is_difficulty medium) qs) (count_by (is_difficulty hard) qs).

Definition completed_count (qs : list Question) : nat := count_by q_practiced qs.

(** First block of [interviewPrepSchema.pre('save')]: when
    [this.isModified('questionsJson')], recompute the statistics and the
    completion counters. *)
Definition recompute_derived (questions_modified : bool) (p : Prep) : Prep :=
  if questions_modified then
    let qs := p_questions p in
    let c := completed_count qs in
    let pct := if 0 <? length qs then js_percent c (length qs) else 0%Z in
    set_progress (with_completion c (length qs) pct (p_progress p)) (set_stats (computeStats qs) p)
  else p.

(** Second block: update status based on progress. *)
Definition advance_status (now : nat) (p1 : Prep) : Prep :=
  let pct := percentComplete (p_progress p1) in
  if Z.eqb pct 100 && negb (status_eqb (p_status p1) completed) then
    set_completedAt (Some now) (set_status completed p1)
  else if Z.ltb 0 pct && status_eqb (p_status p1) generated then
    set_status in_progress p1
  else p1.

(** [interviewPrepSchema.pre('save')]; [questions_modified] is
    [this.isModified('questionsJson')]. *)
Definition pre_save (now : nat) (questions_modified : bool) (p : Prep) : Prep :=
  advance_status now (recompute_derived questions_modified p).

(** *** [updateQuestionProgress] on the document [findOne] returned *)

(** [prep.questionsJson.find(q => q._id == questionId)], updated in place. *)
Fixpoint find_question (qid : nat) (qs : list Question) : option Question :=
  match qs with
  | [] => None
  | q :: qs' => if q_id q =? qid then Some q else find_question qid qs'
  end.

Fixpoint update_first (qid : nat) (f : Question -> Question) (qs : list Question) : list Question :=
  match qs with
  | [] => []
  | q :: qs' => if q_id q =? qid then f q :: qs' else q :: update_first qid f qs'
  end.

(** The three assignments to the found question. *)
Definition update_question (practiced : option bool) (conf : option Confidence)
    (notes : option string) (q : Question) : Question :=
  let '(pr, cnt) := match practiced with
                    | Some b => (b, if b then S (q_practicedCount q) else q_practicedCount q)
                    | None => (q_practiced q, q_practicedCount q)
                    end in
  mkQ (q_id q) (q_type q) (q_difficulty q) pr cnt
      (match conf with Some c => Some c | None => q_confidenceLevel q end)
      (match notes with Some n => Some n | None => q_userNotes q end).

Definition conf_eqb (a b : Confidence) : bool :=
  match a, b with
  | conf_low, conf_low | conf_medium, conf_medium | conf_high, conf_high => true
  | _, _ => false
  end.

Definition option_eqb {A} (eqb : A -> A -> bool) (x y : option A) : bool :=
  match x, y with
  | Some a, Some b => eqb a b
  | None, None => true
  | _, _ => false
  end.

(** [isModified('questionsJson')] after the three assignments: Mongoose
    marks a path modified only when the value assigned differs from the
    stored one. [practicedCount] changes whenever [practiced] is true. *)
Definition question_changed (practiced : option bool) (conf : option Confidence)
    (notes : option string) (q : Question) : bool :=
  match practiced with Some true => true | Some false => q_practiced q | None => false end
  || match conf with
     | Some c => negb (option_eqb conf_eqb (q_confidenceLevel q) (Some c))
     | None => false
     end
  || match notes with
     | Some n => negb (option_eqb String.eqb (q_userNotes q) (Some n))
     | None => false
     end.

Definition updateQuestionProgress (now qid : nat) (practiced : option bool)
    (conf : option Confidence) (notes : option string) (p : Prep) : result Prep :=
  match find_question qid (p_questions p) with
  | None => Err 404 p
  | Some q =>
      let qs := update_first qid (update_question practiced conf notes) (p_questions p) in
      let modified := question_changed practiced conf notes q in
      let p1 := set_questions qs p in
      (* Update progress *)
      let c := completed_count qs in
      let pct := js_percent c (length qs) in
      let pr := p_progress p1 in
      let p2 := set_progress (mkProg c (totalQuestions pr) pct (Some now)
                                     (totalPracticeTime pr) (averageConfidence pr)) p1 in
      (* Update status if all questions completed *)
      let p3 := if Z.eqb pct 100 then set_completedAt (Some now) (set_status completed p2)
                else if Z.ltb 0 pct && status_eqb (p_status p2) generated
                then set_status in_progress p2
                else p2 in
      Ok (pre_save now modified p3)
  end.

(** *** [recordPracticeSession] on the document [findOne] returned *)

Definition sum_confidence (ss : list Session) : Z :=
  fold_left (fun acc s => (acc + ses_averageConfidence s)%Z) ss 0%Z.

(** [min: 0, max: 100] on the session's and on the progress'
    [averageConfidence]. *)
Definition valid_confidences (p : Prep) : bool :=
  forallb (fun s => (0 <=? ses_averageConfidence s) && (ses_averageConfidence s <=? 100))%Z
          (p_sessions p)
  && (0 <=? averageConfidence (p_progress p))%Z && (averageConfidence (p_progress p) <=? 100)%Z.

(** [conf] is [req.body.averageConfidence] ([None]: absent); the stored
    value is [averageConfidence || 0]. *)
Definition recordPracticeSession (now questionsAttempted' : nat) (duration' : Z)
    (conf : option Z) (p : Prep) : result Prep :=
  if (questionsAttempted' =? 0) || Z.eqb duration' 0 then Err 400 p
  else
    let ss := p_sessions p ++ [mkSess now questionsAttempted' duration'
                                      (match conf with Some c => c | None => 0%Z end)] in
    let p1 := set_sessions ss p in
    let pr := p_progress p1 in
    let totalSessions := length ss in
    let totalConfidence := sum_confidence ss in
    let p2 := set_progress (mkProg (questionsCompleted pr) (totalQuestions pr) (percentComplete pr)
                                   (Some now) (totalPracticeTime pr + duration')
                                   (round_div totalConfidence totalSessions)) p1 in
    if valid_confidences p2 then Ok (pre_save now false p2) else Err 500 p.

(** *** [generateInterview] over the [interview_preps] collection *)

Record PrepStore := mkPS { preps : list Prep; next_prep_id : nat }.

Definition empty_stats : QuestionStats := mkStats 0 0 0 0 0 0 0 0 0.
Definition empty_progress : Progress := mkProg 0 0 0 None 0 0.

(** A question as the generator returns it (parsed model JSON): its
    [type] and [difficulty] are [None] when outside the schema's enums. *)
Record GenQuestion := mkGQ {
  gq_question : string;
  gq_type : option QType;
  gq_difficulty : option Difficulty;
  gq_topic : string;
  gq_modelAnswer : string
}.

(** The validators of [interviewQuestionSchema] that [prepDoc.save()] runs:
    [question], [topic], [modelAnswer] required, [type] and [difficulty]
    required and in their enums. *)
Definition valid_gen_question (g : GenQuestion) : bool :=
  ResumeData.nonempty (gq_question g) && ResumeData.nonempty (gq_topic g) &&
  ResumeData.nonempty (gq_modelAnswer g) &&
  match gq_type g, gq_difficulty g with Some _, Some _ => true | _, _ => false end.

(** [{ ...q, practiced: false, practicedCount: 0 }], with the question id
    Mongoose assigns. The defaults for [type] and [difficulty] are never
    stored: such a question fails [valid_gen_question]. *)
Definition gen_to_question (qid : nat) (g : GenQuestion) : Question :=
  mkQ qid (match gq_type g with Some t => t | None => technical end)
      (match gq_difficulty g with Some d => d | None => easy end) false 0 None None.

Definition replace_prep (p : Prep) (ps : list Prep) : list Prep :=
  map (fun x => if p_id x =? p_id p then p else x) ps.

Definition find_prep (id : nat) (st : PrepStore) : option Prep :=
  find (fun x => p_id x =? id) (preps st).

Definition byte (c : Ascii.ascii) : nat := Ascii.nat_of_ascii c.

(** [s.trim() === ''] on a UTF-8 string: [s] is a sequence of ECMAScript
    white space and line terminators, U+0009-U+000D, U+0020, U+00A0,
    U+1680, U+2000-U+200A, U+2028, U+2029, U+202F, U+205F, U+3000 and
    U+FEFF. *)
Fixpoint js_blank (s : string) : bool :=
  match s with
  | EmptyString => true
  | String c s1 =>
      let b := byte c in
      if ((9 <=? b) && (b <=? 13)) || (b =? 32) then js_blank s1
      else
        match s1 with
        | EmptyString => false
        | String c2 s2 =>
            if (b =? 194) && (byte c2 =? 160) then js_blank s2
            else
              match s2 with
              | EmptyString => false
              | String c3 s3 =>
                  let b2 := byte c2 in
                  let b3 := byte c3 in
                  if ((b =? 225) && (b2 =? 154) && (b3 =? 128))
                     || ((b =? 226) && (b2 =? 128) &&
                         (((128 <=? b3) && (b3 <=? 138)) || (b3 =? 168) || (b3 =? 169)
                          || (b3 =? 175)))
                     || ((b =? 226) && (b2 =? 129) && (b3 =? 159))
                     || ((b =? 227) && (b2 =? 128) && (b3 =? 128))
                     || ((b =? 239) && (b2 =? 187) && (b3 =? 191))
                  then js_blank s3
                  else false
              end
        end
  end.

Definition is_hex (c : Ascii.ascii) : bool :=
  let b := byte c in
  ((48 <=? b) && (b <=? 57)) || ((65 <=? b) && (b <=? 70)) || ((97 <=? b) && (b <=? 102)).

(** The string forms an [ObjectId] cast accepts: 24 hexadecimal digits. *)
Definition objectid_string (s : string) : bool :=
  (String.length s =? 24) && forallb is_hex (list_ascii_of_string s).

Definition experience_levels : list string := ["entry"; "mid"; "senior"; "lead"; "executive"]%string.

(** The casts and validators [InterviewPrep.create] runs on the fields the
    handler passes: [company] and [role] are trimmed and required,
    [technologies] must be non-empty, [jobMatchId || null] must cast to an
    [ObjectId] (or be [null]), [experienceLevel] must be in its enum when
    given. *)
Definition create_valid (company role : string) (techs : list string)
    (jobMatchId experienceLevel : option string) : bool :=
  negb (js_blank company) && negb (js_blank role) &&
  match techs with [] => false | _ => true end &&
  match jobMatchId with
  | None => true
  | Some j => if String.eqb j "" then true else objectid_string j
  end &&
  match experienceLevel with
  | None => true
  | Some e => existsb (String.eqb e) experience_levels
  end.

(** [generateInterview]. [technologies] is [None] when not an array;
    [jobMatchId] and [experienceLevel] are the request's fields ([None]:
    absent); [gen] is the generator's question list, [None] when
    [generateInterviewPrep] throws. The generated questions get fresh ids
    from [qid0]. A validation error of [create] or of [save] is caught and
    answered with [500]. *)
Definition generateInterview (now : nat) (userId : option nat) (company role : string)
    (technologies : option (list string)) (jobMatchId experienceLevel : option string)
    (gen : option (list GenQuestion)) (qid0 : nat) (st : PrepStore) : result PrepStore :=
  match userId with
  | None => Err 401 st
  | Some uid =>
      match technologies with
      | None => Err 400 st
      | Some techs =>
          if negb (ResumeData.nonempty company) || negb (ResumeData.nonempty role) then Err 400 st
          else if negb (create_valid company role techs jobMatchId experienceLevel) then Err 500 st
          else
              (* Create initial prep document in 'generating' status *)
              let doc := mkPrep (next_prep_id st) uid [] empty_stats generating None None
                                empty_progress [] in
              let st1 := mkPS (preps st ++ [doc]) (S (next_prep_id st)) in
              match gen with
              | None => Err 500 st1
              | Some gqs =>
                  let qs := map (fun '(i, g) => gen_to_question (qid0 + i) g)
                                (combine (seq 0 (length gqs)) gqs) in
                  let d1 := set_generatedAt (Some now) (set_status generated (set_questions qs doc)) in
                  let d2 := set_progress (mkProg 0 (length qs) 0 None 0 0)
                                         (set_stats (computeStats qs) d1) in
                  let d3 := pre_save now true d2 in
                  if forallb valid_gen_question gqs
                  then Ok (mkPS (replace_prep d3 (preps st1)) (next_prep_id st1))
                  else Err 500 st1
              end
      end
  end.

(** *** Observations used by the properties *)

Definition prep_of (r : result Prep) : Prep := match r with Ok p => p | Err _ p => p end.
Definition ps_of (r : result PrepStore) : PrepStore := match r with Ok s => s | Err _ s => s end.

(** The derived fields agree with [questionsJson]: the statistics, the
    counts, and the percentage as [Math.round((c / t) * 100)] in doubles
    (0 for an empty list). *)
Definition prep_consistent (p : Prep) : Prop :=
  let qs := p_questions p in
  let c := completed_count qs in
  p_stats p = computeStats qs /\
  st_total (p_stats p) = length qs /\
  totalQuestions (p_progress p) = length qs /\
  questionsCompleted (p_progress p) = c /\
  percentComplete (p_progress p) = (if 0 <? length qs then js_percent c (length qs) else 0%Z).

(** A completed prep carries its completion time. *)
Definition completion_inv (p : Prep) : Prop := p_status p = completed -> p_completedAt p <> None.

(** The mutations of an existing prep. *)
Inductive Mutation :=
| MUpdateQuestion (qid : nat) (practiced : option bool) (conf : option Confidence) (notes : option string)
| MRecordSession (questionsAttempted' : nat) (duration' : Z) (conf : option Z).

Definition apply_mutation (now : nat) (m : Mutation) (p : Prep) : result Prep :=
  match m with
  | MUpdateQuestion qid pr cf nt => updateQuestionProgress now qid pr cf nt p
  | MRecordSession a d c => recordPracticeSession now a d c p
  end.

(** A prep of [n] questions, the first [k] of them practiced. *)
Definition sample_prep (n k : nat) (st : PrepStatus) : Prep :=
  let qs := map (fun i => mkQ i technical medium (i <? k) (if i <? k then 1 else 0) None None)
                (seq 0 n) in
  mkPrep 0 7 qs (computeStats qs) st None None
         (mkProg k n (js_percent k n) None 0 0) [].

(** *** [deleteInterviewPrep] *)

Definition prep_owned (uid id : nat) (p : Prep) : bool := (p_id p =? id) && (p_userId p =? uid).

(** [InterviewPrep.deleteOne({ _id: id, userId })]: removes the first
    matching row. *)
Fixpoint delete_first_prep (uid id : nat) (ps : list Prep) : list Prep :=
  match ps with
  | [] => []
  | p :: ps' => if prep_owned uid id p then ps' else p :: delete_first_prep uid id ps'
  end.

(** [deleteInterviewPrep]: [404] when [deletedCount === 0]. *)
Definition deleteInterviewPrep (userId : option nat) (id : nat) (st : PrepStore) : result PrepStore :=
  match userId with
  | None => Err 401 st
  | Some uid =>
      if existsb (prep_owned uid id) (preps st)
      then Ok (mkPS (delete_first_prep uid id (preps st)) (next_prep_id st))
      else Err 404 st
  end.

(** A sequence of mutation requests on one prep, each at its own time; a
    rejected request leaves the document as it was. *)
Fixpoint run_mutations (ms : list (nat * Mutation)) (p : Prep) : Prep :=
  match ms with
  | [] => p
  | (now, m) :: ms' => run_mutations ms' (prep_of (apply_mutation now m p))
  end.

End Interview.

(* ================================================================== *)
(** * Properties *)

(** ** Active resume *)
Module ResumeFacts.
Import Resume.

Lemma active_deactivate_same (u : nat) (rs : list ParsedResume) :
  filter (fun r => (r_userId r =? u) && r_isActive r) (deactivate_all u rs) = [].
Proof.
  induction rs as [|r rs IH]; simpl; [reflexivity|].
  destruct ((r_userId r =? u) && r_isActive r) eqn:E; simpl.
  - rewrite andb_false_r; exact IH.
  - rewrite E; exact IH.
Qed.

Lemma active_deactivate_other (u v : nat) (rs : list ParsedResume) :
  u <> v ->
  filter (fun r => (r_userId r =? u) && r_isActive r) (deactivate_all v rs)
  = filter (fun r => (r_userId r =? u) && r_isActive r) rs.
Proof.
  intros Huv; induction rs as [|r rs IH]; simpl; [reflexivity|].
  destruct ((r_userId r =? v) && r_isActive r) eqn:E; simpl.
  - apply andb_true_iff in E as [E1 _]; apply Nat.eqb_eq in E1.
    assert (Hn : (r_userId r =? u) = false) by (apply Nat.eqb_neq; lia).
    rewrite Hn; simpl; exact IH.
  - rewrite IH; reflexivity.
Qed.

(** The active resumes of [u] after each of the three writes of an upload
    by [v]. *)
Lemma active_after_deactivate (u v : nat) (s : Store) :
  active_of u (upload_deactivate v s) = if u =? v then [] else active_of u s.
Proof.
  unfold active_of, upload_deactivate; simpl.
  destruct (Nat.eqb_spec u v) as [->|Hne].
  - apply active_deactivate_same.
  - apply active_deactivate_other, Hne.
Qed.

Lemma active_after_create (u v : nat) (d : UploadInput) (s s' : Store) (rid : nat) :
  upload_create v d s = Some (s', rid) ->
  active_of u s' = active_of u s ++ (if u =? v then [mkResume (next_id s) v true] else []) /\
  rid = next_id s /\ users s' = users s /\ next_id s' = S (next_id s) /\
  resumes s' = resumes s ++ [mkResume (next_id s) v true].
Proof.
  unfold upload_create; destruct (valid_upload d); [|discriminate].
  intros H; inversion H; subst; clear H.
  unfold active_of; simpl; rewrite filter_app; simpl.
  destruct (Nat.eqb_spec u v) as [->|Hne].
  - rewrite !Nat.eqb_refl; simpl; auto.
  - replace (v =? u) with false by (symmetry; apply Nat.eqb_neq; lia).
    replace (u =? v) with false by (symmetry; apply Nat.eqb_neq; lia).
    simpl; auto.
Qed.

Lemma active_after_link (u v rid : nat) (s : Store) :
  active_of u (upload_link v rid s) = active_of u s.
Proof. reflexivity. Qed.

Lemma find_user_set (u rid : nat) (us : list User) :
  find (fun x => u_id x =? u) us <> None ->
  find (fun x => u_id x =? u) (set_active_resume u rid us) = Some (mkUser u (Some rid)).
Proof.
  induction us as [|x us IH]; simpl; [congruence|].
  destruct (u_id x =? u) eqn:E; simpl.
  - intros _; rewrite E; apply Nat.eqb_eq in E; rewrite E; reflexivity.
  - rewrite E; exact IH.
Qed.

(** One upload scheduled alone goes through the same writes as
    [uploadResume] and ends in the store it answers with. *)
Lemma upload_steps_sequential (u : nat) (d : UploadInput) (s : Store) :
  run_schedule [0; 0; 0] [mkUp u d Start] s
  = ([mkUp u d (if valid_upload d then Done else Failed)],
     match uploadResume (Some u) true (Some d) s with Ok s' => s' | Err _ s' => s' end).
Proof.
  cbn [run_schedule nth_error step_upload up_stage up_user up_input replace_nth].
  unfold uploadResume, upload_create; simpl.
  destruct (valid_upload d); reflexivity.
Qed.

Lemma step_create_ok (u : nat) (d : UploadInput) (s : Store) :
  valid_upload d = true ->
  step_upload (mkUp u d Deactivated) s = (mkUp u d (Created (next_id s)), fst (create_resume u s)).
Proof. intros H; unfold step_upload, upload_create; simpl; rewrite H; reflexivity. Qed.

(** C1. The claim fails for concurrent uploads and for an upload whose
    [create] throws. Two uploads of the same user whose [await]s interleave
    (both [updateMany]s, then both [create]s, then both
    [findByIdAndUpdate]s) both complete and leave the user with two active
    resumes, [activeResumeId] naming the second. And after a completed
    upload, an upload whose [create] fails validation has already
    deactivated the active resume: the user has no active resume, while
    [activeResumeId] still names the now inactive one. *)
Theorem upload_not_exactly_one_active (s : Store) (u : nat) (d1 d2 d3 : UploadInput) :
  valid_upload d1 = true -> valid_upload d2 = true -> valid_upload d3 = false ->
  (map up_stage (fst (run_schedule [0; 1; 0; 1; 0; 1] [mkUp u d1 Start; mkUp u d2 Start] s))
   = [Done; Done] /\
   active_of u (snd (run_schedule [0; 1; 0; 1; 0; 1] [mkUp u d1 Start; mkUp u d2 Start] s))
   = [mkResume (next_id s) u true; mkResume (S (next_id s)) u true] /\
   (find_user u s <> None ->
    find_user u (snd (run_schedule [0; 1; 0; 1; 0; 1] [mkUp u d1 Start; mkUp u d2 Start] s))
    = Some (mkUser u (Some (S (next_id s)))))) /\
  (forall s1, uploadResume (Some u) true (Some d1) s = Ok s1 ->
   exists s2, uploadResume (Some u) true (Some d3) s1 = Err 500 s2 /\
     active_of u s2 = [] /\
     In (mkResume (next_id s) u false) (resumes s2) /\
     (find_user u s <> None -> find_user u s2 = Some (mkUser u (Some (next_id s))))).
Proof.
  intros H1 H2 H3; split.
  - simpl; rewrite (step_create_ok u d1) by exact H1.
    simpl; rewrite (step_create_ok u d2) by exact H2.
    simpl; split; [reflexivity|split].
    + unfold active_of, upload_link, upload_deactivate, create_resume; cbn [resumes next_id users].
      rewrite !filter_app, active_deactivate_same; simpl; rewrite Nat.eqb_refl; reflexivity.
    + intros Hf; unfold find_user, upload_link, upload_deactivate, create_resume;
        cbn [resumes next_id users].
      apply find_user_set; rewrite find_user_set by exact Hf; discriminate.
  - intros s1 Hs1; unfold uploadResume in *; unfold upload_create in *.
    rewrite H1 in Hs1; rewrite H3; inversion Hs1; subst s1; clear Hs1.
    eexists; split; [reflexivity|split; [|split]].
    + unfold active_of, upload_deactivate; cbn [resumes]; apply active_deactivate_same.
    + unfold upload_deactivate, upload_link, create_resume; cbn [resumes].
      unfold deactivate_all; rewrite map_app; apply in_or_app; right; simpl.
      rewrite Nat.eqb_refl; left; reflexivity.
    + intros Hf; unfold find_user, upload_deactivate, upload_link, create_resume;
        cbn [resumes next_id users].
      apply find_user_set, Hf.
Qed.

Lemma upload_not_exactly_one_active_witness :
  valid_upload sample_upload = true /\ valid_upload sample_upload_no_company = false /\
  count_active 1 (snd (run_schedule [0; 1; 0; 1; 0; 1]
                         [mkUp 1 sample_upload Start; mkUp 1 sample_upload Start]
                         (empty_store [mkUser 1 None]))) = 2.
Proof.
  assert (Hv : valid_upload sample_upload = true) by reflexivity.
  assert (Hn : valid_upload sample_upload_no_company = false) by reflexivity.
  split; [exact Hv|split; [exact Hn|]].
  pose proof (proj1 (upload_not_exactly_one_active (empty_store [mkUser 1 None]) 1
                       sample_upload sample_upload sample_upload_no_company Hv Hv Hn)) as H.
  destruct H as (_ & Ha & _).
  unfold count_active; rewrite Ha; reflexivity.
Defined.

End ResumeFacts.

(** ** Re-analysis keeps the denormalized copies in sync *)
Module ResumeDataFacts.
Import ResumeData.

Lemma find_after_replace (f : ResumeDoc -> bool) (r' : ResumeDoc) (rs : list ResumeDoc) :
  f r' = true -> find f rs <> None ->
  find f (map (fun x => if f x then r' else x) rs) = Some r'.
Proof.
  intros Hr; induction rs as [|x rs IH]; simpl; [congruence|].
  destruct (f x) eqn:E; simpl.
  - intros _; rewrite Hr; reflexivity.
  - rewrite E; exact IH.
Qed.

Lemma find_owned (uid id : nat) (rs : list ResumeDoc) (r : ResumeDoc) :
  find (owned uid id) rs = Some r -> owned uid id r = true.
Proof. intros H; apply find_some in H; tauto. Qed.

(** The analyzer never leaves [skills], [experience] or [education]
    undefined. *)
Lemma analyze_defined xN xSu xSk xE xEd (llm : option StructuredResume) (raw : string) :
  let sr := analyzeResume xN xSu xSk xE xEd llm raw in
  sr_skills sr <> None /\ sr_experience sr <> None /\ sr_education sr <> None.
Proof.
  destruct llm as [d|]; simpl; [|repeat split; discriminate].
  destruct (sr_skills d) as [[|? ?]|], (sr_experience d), (sr_education d);
    repeat split; discriminate.
Qed.

(** C8. After a completed [reanalyzeResume] of resume [id], reading the
    resume back gives a [structuredJson] payload [P] whose [skills],
    [experience] and [education] are exactly the top-level [skills],
    [experience] and [education]; [P] is the analyzer's result as stored, and
    that result has all three arrays defined and equal to the top-level
    copies. *)
Theorem reanalyze_denormalized_roundtrip xN xSu xSk xE xEd
    (uid id : nat) (llm : option StructuredResume) (rs rs' : list ResumeDoc) :
  reanalyzeResume xN xSu xSk xE xEd (Some uid) id llm rs = Ok rs' ->
  exists r P sr,
    find_resume uid id rs' = Some r /\
    read_resume r = (Some P, sd_skills P, sd_experience P, sd_education P) /\
    sr = analyzeResume xN xSu xSk xE xEd llm (rd_rawText r) /\
    P = cast_structured sr /\
    sr_skills sr = Some (rd_skills r) /\
    sr_experience sr = Some (rd_experience r) /\
    sr_education sr = Some (rd_education r).
Proof.
  unfold reanalyzeResume.
  destruct (find_resume uid id rs) as [r0|] eqn:Hf; [|discriminate].
  set (sr := analyzeResume xN xSu xSk xE xEd llm (rd_rawText r0)).
  destruct (valid_resume (replace_structured sr r0)); [|discriminate].
  intros H; inversion H; subst rs'; clear H.
  pose proof (find_owned uid id rs r0 Hf) as Ho.
  exists (replace_structured sr r0), (cast_structured sr), sr.
  assert (Hd := analyze_defined xN xSu xSk xE xEd llm (rd_rawText r0)); fold sr in Hd.
  destruct Hd as (Hs & He & Hed).
  repeat split.
  - unfold find_resume; apply find_after_replace.
    + unfold owned in *; simpl; exact Ho.
    + unfold find_resume in Hf; rewrite Hf; discriminate.
  - cbn [replace_structured rd_skills rd_experience rd_education]; destruct (sr_skills sr); [reflexivity|congruence].
  - cbn [replace_structured rd_skills rd_experience rd_education]; destruct (sr_experience sr); [reflexivity|congruence].
  - cbn [replace_structured rd_skills rd_experience rd_education]; destruct (sr_education sr); [reflexivity|congruence].
Qed.

Lemma reanalyze_denormalized_roundtrip_witness :
  let xN := fun _ : string => @None string in
  let xSu := fun _ : string => @None string in
  let xSk := fun _ : string => @nil string in
  let xE := fun _ : string => @nil Experience in
  let xEd := fun _ : string => @nil Education in
  let llm := Some (mkSR (Some "Ann"%string) None (Some ["Go"%string; "SQL"%string])
                        (Some [mkExp "Acme"%string "Dev"%string None]) None) in
  let rs := [mkRD 5 1 "raw"%string None [] [] []] in
  let P := mkSD "Ann"%string None ["Go"%string; "SQL"%string]
                [mkExp "Acme"%string "Dev"%string None] [] in
  let rs' := [mkRD 5 1 "raw"%string (Some P) ["Go"%string; "SQL"%string]
                   [mkExp "Acme"%string "Dev"%string None] []] in
  reanalyzeResume xN xSu xSk xE xEd (Some 1) 5 llm rs = Ok rs' /\
  exists r P sr,
    find_resume 1 5 rs' = Some r /\
    read_resume r = (Some P, sd_skills P, sd_experience P, sd_education P) /\
    sr = analyzeResume xN xSu xSk xE xEd llm (rd_rawText r) /\
    P = cast_structured sr /\
    sr_skills sr = Some (rd_skills r) /\
    sr_experience sr = Some (rd_experience r) /\
    sr_education sr = Some (rd_education r).
Proof.
  intros xN xSu xSk xE xEd llm rs P rs'.
  assert (H : reanalyzeResume xN xSu xSk xE xEd (Some 1) 5 llm rs = Ok rs') by reflexivity.
  split; [exact H|].
  exact (reanalyze_denormalized_roundtrip xN xSu xSk xE xEd 1 5 llm rs rs' H).
Defined.

End ResumeDataFacts.

(** ** Job matches *)
Module JobFacts.
Import Job.

(** A store with one job match [1] of user [7], not yet applied. *)
Definition store0 : Store :=
  mkStore [mkJM 1 7 "Backend Engineer"%string 90 excellent false None not_applied None false false]
          [mkAn 7 1 0 None] 2.

(** The guarded sibling path: the pre-save hook never overwrites a set
    [appliedDate]. *)
Lemma pre_save_keeps_appliedDate (now : nat) (b : bool) (m : JobMatch) (d : nat) :
  jm_appliedDate m = Some d -> jobMatch_pre_save now b m = m.
Proof.
  intros H; unfold jobMatch_pre_save; rewrite H; rewrite andb_false_r; reflexivity.
Qed.

(** Every successful [markAsApplied] writes [appliedDate := now], whatever
    the row held before. *)
Lemma markAsApplied_sets_date (now uid id : nat) (notes : option string) (s s' : Store)
    (m : JobMatch) :
  markAsApplied now (Some uid) id notes s = Ok s' ->
  find (owned uid id) (matches s') = Some m -> jm_appliedDate m = Some now.
Proof.
  unfold markAsApplied, find_one_and_update.
  destruct (find (owned uid id) (matches s)) as [m0|] eqn:Hf; [|discriminate].
  intros H; inversion H; subst s'; clear H; simpl.
  intros Hm; apply find_some in Hm as [Hin Ho].
  apply in_map_iff in Hin as (x & Hx & _).
  destruct (owned uid id x) eqn:Ex.
  - subst m; reflexivity.
  - subst m; congruence.
Qed.

(** C2 (divergence). On a row applied at time 10, a second [markAsApplied]
    at time 20 replaces [appliedDate] by 20. *)
Theorem markAsApplied_overwrites_appliedDate :
  let s1 := store_of (markAsApplied 10 (Some 7) 1 None store0) in
  let s2 := store_of (markAsApplied 20 (Some 7) 1 None s1) in
  option_map jm_appliedDate (find_match 1 s1) = Some (Some 10) /\
  option_map jm_applied (find_match 1 s1) = Some true /\
  option_map jm_appliedDate (find_match 1 s2) = Some (Some 20).
Proof. vm_compute; repeat split. Qed.

(** C3 (divergence). Two [markAsApplied] calls on the same row raise the
    user's [totalJobsApplied] from 0 to 2. *)
Theorem markAsApplied_counts_twice :
  let s1 := store_of (markAsApplied 10 (Some 7) 1 None store0) in
  let s2 := store_of (markAsApplied 20 (Some 7) 1 None s1) in
  applied_count 7 store0 = Some 0 /\
  option_map jm_applied (find_match 1 s1) = Some true /\
  applied_count 7 s1 = Some 1 /\
  applied_count 7 s2 = Some 2.
Proof. vm_compute; repeat split. Qed.

(** *** Score bounds and fit buckets *)

Definition row_ok (m : JobMatch) : Prop :=
  (0 <= jm_matchScore m <= 100)%Q /\ jm_overallFit m = overallFit (jm_matchScore m).

Lemma matchJob_bounds (t : string) (llm : option (option Q)) :
  (0 <= mr_score (matchJob t llm) <= 100)%Q.
Proof.
  destruct llm as [p|]; simpl.
  - split.
    + apply Q.le_max_l.
    + apply Q.max_lub; [discriminate|apply Q.le_min_l].
  - split; discriminate.
Qed.

Lemma insert_desc_In (x m : MatchResult) (l : list MatchResult) :
  In x (insert_desc m l) -> x = m \/ In x l.
Proof.
  induction l as [|y l IH]; simpl.
  - intros [H|[]]; left; auto.
  - destruct (Qlt_le_dec (mr_score m) (mr_score y)); simpl.
    + intros [H|H]; [right; left; exact H|].
      destruct (IH H); [left|right; right]; assumption.
    + intros [H|H]; [left; auto|right; exact H].
Qed.

Lemma sort_desc_In (x : MatchResult) (l : list MatchResult) :
  In x (sort_desc l) -> In x l.
Proof.
  induction l as [|m l IH]; simpl; [tauto|].
  intros H; apply insert_desc_In in H as [H|H]; [left; auto|right; apply IH, H].
Qed.

Lemma matchMultipleJobs_bounds (jobs : list (string * option (option Q))) (x : MatchResult) :
  In x (matchMultipleJobs jobs) -> (0 <= mr_score x <= 100)%Q.
Proof.
  unfold matchMultipleJobs; intros H; apply sort_desc_In, in_map_iff in H.
  destruct H as ([t r] & <- & _); apply matchJob_bounds.
Qed.

Lemma In_firstn_In {A} (n : nat) (x : A) (l : list A) : In x (firstn n l) -> In x l.
Proof.
  intros H; rewrite <- (firstn_skipn n l); apply in_or_app; left; exact H.
Qed.

Lemma to_save_In (uid next : nat) (ms : list MatchResult) (r : JobMatch) :
  In r (to_save uid next ms) ->
  exists m, In m ms /\ jm_matchScore r = mr_score m /\ jm_overallFit r = overallFit (mr_score m).
Proof.
  revert next; induction ms as [|m ms IH]; intros next; simpl; [tauto|].
  intros [<-|H].
  - exists m; simpl; auto.
  - destruct (IH (S next) H) as (m' & ? & ? & ?); exists m'; auto.
Qed.

Lemma discover_ok (now : nat) (u : option nat) (sk : option (list string))
    (js : list (string * option (option Q))) (s : Store) :
  (forall m, In m (matches s) -> row_ok m) ->
  forall m, In m (matches (store_of (discoverJobs now u sk js s))) -> row_ok m.
Proof.
  intros Hs m; unfold discoverJobs.
  destruct u as [uid|]; [|apply Hs].
  destruct sk as [[|? ?]|]; try apply Hs.
  destruct js as [|j js']; [apply Hs|].
  set (rows := to_save uid (next_id s) (firstn 20 (matchMultipleJobs (j :: js')))).
  destruct (forallb valid_match rows); simpl; [|apply Hs].
  intros H; apply in_app_iff in H as [H|H]; [apply Hs, H|].
  unfold row_ok; destruct (to_save_In _ _ _ _ H) as (x & Hx & -> & ->).
  split; [|reflexivity].
  apply (matchMultipleJobs_bounds (j :: js')), (In_firstn_In 20), Hx.
Qed.

Lemma update_ok (uid id : nat) (f : JobMatch -> JobMatch) (s : Store) (ms' : list JobMatch) :
  (forall m, jm_matchScore (f m) = jm_matchScore m /\ jm_overallFit (f m) = jm_overallFit m) ->
  (forall m, In m (matches s) -> row_ok m) ->
  find_one_and_update uid id f s = Some ms' ->
  forall m, In m ms' -> row_ok m.
Proof.
  intros Hf Hs; unfold find_one_and_update.
  destruct (find (owned uid id) (matches s)); [|discriminate].
  intros H; inversion H; subst ms'; clear H.
  intros m Hm; apply in_map_iff in Hm as (x & <- & Hx).
  destruct (owned uid id x); [|apply Hs, Hx].
  destruct (Hf x) as [E1 E2]; destruct (Hs x Hx) as [B F].
  unfold row_ok; rewrite E1, E2; split; assumption.
Qed.

Ltac solve_update :=
  match goal with
  | |- context [find_one_and_update ?uid ?id ?f ?s] =>
      destruct (find_one_and_update uid id f s) as [ms'|] eqn:Hu; simpl;
      [eapply update_ok; [|eassumption|exact Hu]; intros; split; reflexivity | assumption]
  end.

Lemma handle_ok (now : nat) (rq : Request) (s : Store) :
  (forall m, In m (matches s) -> row_ok m) ->
  forall m, In m (matches (handle now rq s)) -> row_ok m.
Proof.
  intros Hs; destruct rq as [u sk js|u id n|u id st n|u id|u id]; unfold handle.
  - apply discover_ok, Hs.
  - unfold markAsApplied; destruct u as [uid|]; [|exact Hs]; solve_update.
  - unfold updateApplicationStatus; destruct u as [uid|]; [|exact Hs].
    destruct st as [st|]; [|exact Hs]; solve_update.
  - unfold toggleSaveJob; destruct u as [uid|]; [|exact Hs]; solve_update.
  - unfold hideJob; destruct u as [uid|]; [|exact Hs]; solve_update.
Qed.

Lemma run_ok (rqs : list (nat * Request)) (s : Store) :
  (forall m, In m (matches s) -> row_ok m) ->
  forall m, In m (matches (run rqs s)) -> row_ok m.
Proof.
  revert s; induction rqs as [|[now rq] rqs IH]; intros s Hs; simpl; [exact Hs|].
  apply IH, handle_ok, Hs.
Qed.

Lemma overallFit_spec (s : Q) :
  (overallFit s = excellent <-> 80 <= s)%Q /\
  (overallFit s = good <-> 60 <= s /\ s < 80)%Q /\
  (overallFit s = moderate <-> 40 <= s /\ s < 60)%Q /\
  (overallFit s = low <-> s < 40)%Q.
Proof.
  unfold overallFit.
  destruct (Qle_bool 80 s) eqn:E80; [apply Qle_bool_iff in E80|];
  [|destruct (Qle_bool 60 s) eqn:E60; [apply Qle_bool_iff in E60|];
    [|destruct (Qle_bool 40 s) eqn:E40; [apply Qle_bool_iff in E40|]]];
  repeat match goal with
  | H : Qle_bool _ _ = false |- _ =>
      let H' := fresh in
      assert (H' := H); rewrite <- Bool.not_true_iff_false, Qle_bool_iff in H';
      apply Qnot_le_lt in H'; clear H
  end;
  repeat split; intros; try discriminate; try reflexivity;
  repeat match goal with H : _ /\ _ |- _ => destruct H end;
  try assumption;
  exfalso;
  repeat match goal with
  | H : (?a < ?b)%Q, H' : (?b <= ?a)%Q |- _ => apply (Qlt_not_le _ _ H H')
  | H : (?a < ?b)%Q, H' : (?c <= ?a)%Q |- _ =>
      assert (Hx : (c < b)%Q) by (eapply Qle_lt_trans; eassumption); clear H;
      apply (Qlt_not_le _ _ Hx); discriminate
  end.
Qed.

(** C9. In every store reached from an empty [job_matches] collection by
    any run of the job endpoints (discover, apply, status update, save
    toggle, hide), every row has [0 <= matchScore <= 100] and its
    [overallFit] is [excellent] iff [matchScore >= 80], [good] iff
    [60 <= matchScore < 80], [moderate] iff [40 <= matchScore < 60] and
    [low] iff [matchScore < 40]. *)
Theorem matchScore_bounded_and_fit (an : list Analytics) (rqs : list (nat * Request))
    (m : JobMatch) :
  In m (matches (run rqs (mkStore [] an 0))) ->
  (0 <= jm_matchScore m <= 100)%Q /\
  (jm_overallFit m = excellent <-> 80 <= jm_matchScore m)%Q /\
  (jm_overallFit m = good <-> 60 <= jm_matchScore m /\ jm_matchScore m < 80)%Q /\
  (jm_overallFit m = moderate <-> 40 <= jm_matchScore m /\ jm_matchScore m < 60)%Q /\
  (jm_overallFit m = low <-> jm_matchScore m < 40)%Q.
Proof.
  intros H.
  apply run_ok in H; [|intros x []].
  destruct H as [B ->]; split; [exact B|apply overallFit_spec].
Qed.

Lemma matchScore_bounded_and_fit_witness :
  let rqs := [(5, Discover (Some 7) (Some ["Go"%string; "SQL"%string])
                       [("A"%string, Some (Some 90%Q)); ("B"%string, Some (Some 35%Q))])] in
  let m := mkJM 1 7 "B"%string 35 low false None not_applied None false false in
  In m (matches (run rqs (mkStore [] [mkAn 7 0 0 None] 0))) /\
  (0 <= jm_matchScore m <= 100)%Q /\
  (jm_overallFit m = excellent <-> 80 <= jm_matchScore m)%Q /\
  (jm_overallFit m = good <-> 60 <= jm_matchScore m /\ jm_matchScore m < 80)%Q /\
  (jm_overallFit m = moderate <-> 40 <= jm_matchScore m /\ jm_matchScore m < 60)%Q /\
  (jm_overallFit m = low <-> jm_matchScore m < 40)%Q.
Proof.
  intros rqs m.
  assert (H : In m (matches (run rqs (mkStore [] [mkAn 7 0 0 None] 0))))
    by (vm_compute; right; left; reflexivity).
  split; [exact H|exact (matchScore_bounded_and_fit _ _ m H)].
Defined.

End JobFacts.

(** ** Interview preparation *)
Module InterviewFacts.
Import Interview.

(** *** The two blocks of the pre-save hook *)

Lemma recompute_fixed (b : bool) (q : Prep) :
  p_questions (recompute_derived b q) = p_questions q /\
  p_status (recompute_derived b q) = p_status q /\
  p_completedAt (recompute_derived b q) = p_completedAt q /\
  p_sessions (recompute_derived b q) = p_sessions q.
Proof. destruct b; repeat split. Qed.

Lemma advance_fixed (now : nat) (q : Prep) :
  p_questions (advance_status now q) = p_questions q /\
  p_stats (advance_status now q) = p_stats q /\
  p_progress (advance_status now q) = p_progress q /\
  p_sessions (advance_status now q) = p_sessions q.
Proof.
  unfold advance_status.
  destruct (_ && _); [|destruct (_ && _)]; repeat split.
Qed.

Lemma advance_completed (now : nat) (q : Prep) :
  p_status q = completed -> advance_status now q = q.
Proof.
  intros H; unfold advance_status; rewrite H; simpl.
  rewrite andb_false_r, andb_false_r; reflexivity.
Qed.

Lemma advance_inv (now : nat) (q : Prep) :
  completion_inv q -> completion_inv (advance_status now q).
Proof.
  unfold completion_inv, advance_status; intros H.
  destruct (_ && _); [simpl; discriminate|].
  destruct (_ && _); [simpl; discriminate|exact H].
Qed.

Lemma advance_reaches_100 (now : nat) (q : Prep) :
  percentComplete (p_progress q) = 100%Z ->
  p_status (advance_status now q) = completed /\
  (p_status q <> completed -> p_completedAt (advance_status now q) = Some now).
Proof.
  intros H; destruct (p_status q) eqn:E.
  all: try (rewrite advance_completed by exact E; split; [exact E|congruence]).
  all: unfold advance_status; rewrite H, E; simpl; split; reflexivity.
Qed.

Lemma advance_in_progress (now : nat) (q : Prep) :
  (0 < percentComplete (p_progress q) < 100)%Z ->
  p_status q = generated \/ p_status q = in_progress ->
  p_status (advance_status now q) = in_progress.
Proof.
  intros [H1 H2] Hs; unfold advance_status.
  replace (Z.eqb (percentComplete (p_progress q)) 100) with false
    by (symmetry; apply Z.eqb_neq; lia).
  replace (Z.ltb 0 (percentComplete (p_progress q))) with true
    by (symmetry; apply Z.ltb_lt; lia).
  destruct Hs as [E|E]; rewrite E; simpl; [reflexivity|exact E].
Qed.

(** *** Failure of the question generator (C4) *)

Definition failing_request_store : PrepStore :=
  mkPS [mkPrep 0 7 [] empty_stats generating None None empty_progress []] 1.

(** C4 (counterexample). When [generateInterviewPrep] throws, the handler
    answers 500 and the row it created stays in [generating]: it is not
    reverted to [draft]. *)
Lemma generation_failure_not_reverted :
  generateInterview 5 (Some 7) "Acme"%string "Backend Engineer"%string
                    (Some ["Go"%string]) None None None 0 (mkPS [] 0)
  = Err 500 failing_request_store /\
  option_map p_status (find_prep 0 failing_request_store) = Some generating /\
  option_map p_status (find_prep 0 failing_request_store) <> Some draft.
Proof. vm_compute; repeat split; discriminate. Qed.

(** C4 (amended). If the request passes the handler's checks and
    [InterviewPrep.create] passes validation, so that the row is created in
    [generating], and the question generator then throws, the handler
    answers 500 and the collection keeps the created row, still in status
    [generating]: nothing is deleted and nothing is reverted. *)
Theorem generation_failure_keeps_generating (now uid : nat) (company role : string)
    (techs : list string) (jobMatchId experienceLevel : option string) (qid0 : nat)
    (st : PrepStore) :
  ResumeData.nonempty company = true -> ResumeData.nonempty role = true ->
  create_valid company role techs jobMatchId experienceLevel = true ->
  generateInterview now (Some uid) company role (Some techs) jobMatchId experienceLevel None qid0 st
  = Err 500 (mkPS (preps st ++ [mkPrep (next_prep_id st) uid [] empty_stats generating
                                       None None empty_progress []])
                  (S (next_prep_id st))).
Proof.
  intros Hc Hr Hv; unfold generateInterview; rewrite Hc, Hr, Hv; reflexivity.
Qed.

Lemma generation_failure_keeps_generating_witness :
  ResumeData.nonempty "Acme"%string = true /\ ResumeData.nonempty "Backend Engineer"%string = true /\
  create_valid "Acme"%string "Backend Engineer"%string ["Go"%string] None (Some "senior"%string)
  = true /\
  generateInterview 5 (Some 7) "Acme"%string "Backend Engineer"%string (Some ["Go"%string])
                    None (Some "senior"%string) None 0 (mkPS [] 0)
  = Err 500 (mkPS ([] ++ [mkPrep 0 7 [] empty_stats generating None None empty_progress []]) 1).
Proof.
  assert (H1 : ResumeData.nonempty "Acme"%string = true) by reflexivity.
  assert (H2 : ResumeData.nonempty "Backend Engineer"%string = true) by reflexivity.
  assert (H3 : create_valid "Acme"%string "Backend Engineer"%string ["Go"%string] None
                            (Some "senior"%string) = true) by reflexivity.
  split; [exact H1|split; [exact H2|split; [exact H3|]]].
  exact (generation_failure_keeps_generating 5 7 _ _ _ _ _ 0 (mkPS [] 0) H1 H2 H3).
Defined.

Lemma update_first_length (qid : nat) (f : Question -> Question) (qs : list Question) :
  length (update_first qid f qs) = length qs.
Proof.
  induction qs as [|q qs IH]; simpl; [reflexivity|].
  destruct (q_id q =? qid); simpl; [reflexivity|rewrite IH; reflexivity].
Qed.

Lemma find_question_nonempty (qid : nat) (qs : list Question) (q : Question) :
  find_question qid qs = Some q -> 0 < length qs.
Proof. destruct qs; simpl; [discriminate|lia]. Qed.

Lemma conf_eqb_eq (a b : Confidence) : conf_eqb a b = true -> a = b.
Proof. destruct a, b; simpl; congruence. Qed.

(** An update that changes nothing Mongoose tracks leaves the question as
    it was. *)
Lemma update_question_nochange pr cf nt (q : Question) :
  question_changed pr cf nt q = false -> update_question pr cf nt q = q.
Proof.
  unfold question_changed; intros H.
  apply orb_false_iff in H as [H H3]; apply orb_false_iff in H as [H1 H2].
  destruct q as [i ty df pd cnt cl un]; unfold update_question; cbn [q_practiced q_practicedCount
    q_confidenceLevel q_userNotes q_id q_type q_difficulty] in *.
  assert (E1 : (match pr with Some b => (b, if b then S cnt else cnt) | None => (pd, cnt) end) = (pd, cnt)).
  { destruct pr as [[]|]; [discriminate|subst pd; reflexivity|reflexivity]. }
  assert (E2 : match cf with Some c => Some c | None => cl end = cl).
  { destruct cf as [c|]; [|reflexivity].
    destruct cl as [c'|]; [|discriminate]; simpl in H2.
    apply negb_false_iff, conf_eqb_eq in H2; subst; reflexivity. }
  assert (E3 : match nt with Some n => Some n | None => un end = un).
  { destruct nt as [n|]; [|reflexivity].
    destruct un as [n'|]; [|discriminate]; simpl in H3.
    apply negb_false_iff, String.eqb_eq in H3; subst; reflexivity. }
  rewrite E1, E2, E3; reflexivity.
Qed.

Lemma update_first_nochange (qid : nat) (f : Question -> Question) (qs : list Question) (q : Question) :
  find_question qid qs = Some q -> f q = q -> update_first qid f qs = qs.
Proof.
  induction qs as [|x qs IH]; simpl; [discriminate|].
  destruct (q_id x =? qid); [intros H; inversion H; subst; intros ->; reflexivity|].
  intros H Hq; rewrite IH by assumption; reflexivity.
Qed.

Lemma uqp_shape (now qid : nat) pr cf nt (p p' : Prep) :
  updateQuestionProgress now qid pr cf nt p = Ok p' ->
  exists p3 b,
    p' = pre_save now b p3 /\
    (b = false -> p_questions p3 = p_questions p) /\
    0 < length (p_questions p3) /\
    percentComplete (p_progress p3)
      = js_percent (completed_count (p_questions p3)) (length (p_questions p3)) /\
    (percentComplete (p_progress p3) = 100%Z -> p_status p3 = completed /\ p_completedAt p3 = Some now) /\
    (p_status p = generated -> (0 < percentComplete (p_progress p3) < 100)%Z ->
       p_status p3 = in_progress) /\
    (completion_inv p -> completion_inv p3) /\
    (p_status p = completed -> p_status p3 = completed).
Proof.
  unfold updateQuestionProgress.
  destruct (find_question qid (p_questions p)) as [q|] eqn:Hf; [|discriminate].
  intros H; inversion H; subst p'; clear H.
  eexists; eexists; split; [reflexivity|].
  set (qs := update_first qid (update_question pr cf nt) (p_questions p)).
  set (pct := js_percent (completed_count qs) (length qs)).
  assert (Hlen : 0 < length qs)
    by (unfold qs; rewrite update_first_length; exact (find_question_nonempty _ _ _ Hf)).
  split; [intros Hb; transitivity qs; [destruct (Z.eqb pct 100); [|destruct (_ && _)]; reflexivity|];
          apply update_first_nochange with (q := q); [exact Hf|];
          apply update_question_nochange, Hb|].
  unfold completion_inv.
  destruct (Z.eqb pct 100) eqn:E100;
    [|destruct (Z.ltb 0 pct && status_eqb (p_status p) generated) eqn:Eg];
    cbn [p_questions p_progress percentComplete p_status p_completedAt
         set_status set_completedAt set_progress set_questions].
  - apply Z.eqb_eq in E100.
    repeat split; auto; intros; try discriminate; lia.
  - apply Z.eqb_neq in E100; apply andb_true_iff in Eg as [E0 Eg].
    repeat split; auto; intros; try discriminate; try lia.
    destruct (p_status p); discriminate.
  - apply Z.eqb_neq in E100.
    repeat split; auto; intros; try lia.
    match goal with H : p_status p = generated |- _ => rewrite H in Eg end.
    replace (Z.ltb 0 pct) with true in Eg by (symmetry; apply Z.ltb_lt; lia).
    discriminate.
Qed.

Lemma rps_shape (now a : nat) (d : Z) (c : option Z) (p p' : Prep) :
  recordPracticeSession now a d c p = Ok p' ->
  exists p2,
    p' = pre_save now false p2 /\
    p_status p2 = p_status p /\ p_completedAt p2 = p_completedAt p /\
    percentComplete (p_progress p2) = percentComplete (p_progress p) /\
    p_sessions p2 = p_sessions p ++ [mkSess now a d (match c with Some x => x | None => 0%Z end)] /\
    averageConfidence (p_progress p2)
      = round_div (sum_confidence (p_sessions p2)) (length (p_sessions p2)).
Proof.
  unfold recordPracticeSession.
  destruct (_ || _); [discriminate|].
  destruct (valid_confidences _); [|discriminate].
  intros H; inversion H; subst p'; clear H.
  eexists; split; [reflexivity|]; repeat split.
Qed.

Lemma pre_save_consistent (now : nat) (q : Prep) : prep_consistent (pre_save now true q).
Proof.
  unfold prep_consistent, pre_save.
  destruct (advance_fixed now (recompute_derived true q)) as (Hq & Hs & Hp & _).
  rewrite Hq, Hs, Hp; simpl; repeat split.
Qed.

(** The model's percentage agrees with the exact one for every list of
    fewer than 40 questions (checked exhaustively). *)
Lemma js_percent_small (c t : nat) :
  0 < t < 40 -> c <= t -> js_percent c t = exact_percent c t.
Proof.
  intros Ht Hc.
  assert (Hall : forallb (fun t => forallb (fun c => Z.eqb (js_percent c t) (exact_percent c t))
                                           (seq 0 (S t)))
                         (seq 1 39) = true) by (vm_compute; reflexivity).
  rewrite forallb_forall in Hall.
  specialize (Hall t (proj2 (in_seq 39 1 t) ltac:(lia))).
  rewrite forallb_forall in Hall.
  specialize (Hall c (proj2 (in_seq (S t) 0 c) ltac:(lia))).
  apply Z.eqb_eq, Hall.
Qed.

(** C5. The claim's [percentComplete = round(100 * completed / total)]
    fails in the code: in a prep of 40 questions with 22 practiced, marking
    the 23rd practiced stores [percentComplete = 57], because
    [(23 / 40) * 100] is [57.49999999999999] in doubles, while
    [round(100 * 23 / 40) = 58]. [questionStats.total] is 40, the length of
    [questionsJson]. *)
Lemma percent_tie_rounds_down :
  exists p',
    updateQuestionProgress 5 22 (Some true) None None (sample_prep 40 22 in_progress) = Ok p' /\
    completed_count (p_questions p') = 23 /\ length (p_questions p') = 40 /\
    st_total (p_stats p') = 40 /\
    percentComplete (p_progress p') = 57%Z /\ exact_percent 23 40 = 58%Z.
Proof.
  exists (prep_of (updateQuestionProgress 5 22 (Some true) None None (sample_prep 40 22 in_progress))).
  vm_compute; repeat split.
Qed.

(** C6. After every mutation of a prep (question progress or practice
    session) that completes: if [percentComplete] is 100 the status is
    [completed] and [completedAt] is set, stamped with this request's time
    when the prep was not completed before; a prep in [generated] whose
    [percentComplete] is now strictly between 0 and 100 is [in_progress];
    and a completed prep keeps its [completedAt]. *)
Theorem status_auto_advance (now : nat) (m : Mutation) (p p' : Prep) :
  completion_inv p ->
  apply_mutation now m p = Ok p' ->
  completion_inv p' /\
  (percentComplete (p_progress p') = 100%Z ->
     p_status p' = completed /\ p_completedAt p' <> None /\
     (p_status p <> completed -> p_completedAt p' = Some now)) /\
  (p_status p = generated -> (0 < percentComplete (p_progress p') < 100)%Z ->
     p_status p' = in_progress).
Proof.
  intros Hinv H; destruct m as [qid pr cf nt|a d c]; simpl in H.
  - destruct (uqp_shape now qid pr cf nt p p' H)
      as (p3 & b & -> & _ & Hlen & Hpct & F1 & F2 & F3 & F4).
    assert (Hp : percentComplete (p_progress (recompute_derived b p3))
                 = percentComplete (p_progress p3)).
    { destruct b; simpl; [|reflexivity].
      replace (0 <? length (p_questions p3)) with true
        by (symmetry; apply Nat.ltb_lt; exact Hlen).
      symmetry; exact Hpct. }
    destruct (recompute_fixed b p3) as (_ & Hst & Hca & _).
    unfold pre_save.
    rewrite (proj1 (proj2 (proj2 (advance_fixed now _)))), Hp.
    split; [|split].
    + apply advance_inv; unfold completion_inv; rewrite Hst, Hca; exact (F3 Hinv).
    + intros H100; destruct (F1 H100) as [Hc Hn].
      rewrite advance_completed by (rewrite Hst; exact Hc).
      rewrite Hst, Hca, Hn; split; [exact Hc|split; [discriminate|intros _; reflexivity]].
    + intros Hg Hr; apply advance_in_progress; [rewrite Hp; exact Hr|].
      rewrite Hst; right; exact (F2 Hg Hr).
  - destruct (rps_shape now a d c p p' H) as (p2 & -> & Hst & Hca & Hpc & _).
    unfold pre_save; cbn [recompute_derived].
    rewrite (proj1 (proj2 (proj2 (advance_fixed now _)))).
    split; [|split].
    + apply advance_inv; unfold completion_inv; rewrite Hst, Hca; exact Hinv.
    + intros H100; destruct (advance_reaches_100 now p2 H100) as [Hc Hn].
      split; [exact Hc|]; rewrite Hst in Hn.
      destruct (p_status p) eqn:E.
      all: try (rewrite (Hn ltac:(discriminate)); split; [discriminate|intros; reflexivity]).
      rewrite advance_completed by exact Hst.
      rewrite Hca; split; [exact (Hinv E)|congruence].
    + intros Hg Hr; apply advance_in_progress; [exact Hr|rewrite Hst; left; exact Hg].
Qed.

Lemma status_auto_advance_witness :
  let p := sample_prep 10 0 generated in
  let m := MUpdateQuestion 0 (Some true) None None in
  let p' := prep_of (apply_mutation 5 m p) in
  completion_inv p /\ apply_mutation 5 m p = Ok p' /\
  percentComplete (p_progress p') = 10%Z /\
  (completion_inv p' /\
   (percentComplete (p_progress p') = 100%Z ->
      p_status p' = completed /\ p_completedAt p' <> None /\
      (p_status p <> completed -> p_completedAt p' = Some 5)) /\
   (p_status p = generated -> (0 < percentComplete (p_progress p') < 100)%Z ->
      p_status p' = in_progress)).
Proof.
  intros p m p'.
  assert (H1 : completion_inv p) by (intros E; discriminate E).
  assert (H2 : apply_mutation 5 m p = Ok p') by (vm_compute; reflexivity).
  split; [exact H1|split; [exact H2|split; [vm_compute; reflexivity|]]].
  exact (status_auto_advance 5 m p p' H1 H2).
Defined.




(** C10. A completed prep stays [completed] through any
    [updateQuestionProgress], even one that un-practices a question and
    lowers [percentComplete] below 100. *)
Theorem completed_never_regresses (now qid : nat) pr cf nt (p p' : Prep) :
  p_status p = completed ->
  updateQuestionProgress now qid pr cf nt p = Ok p' ->
  p_status p' = completed.
Proof.
  intros Hc H.
  destruct (uqp_shape now qid pr cf nt p p' H) as (p3 & b & -> & _ & _ & _ & _ & _ & _ & F4).
  destruct (recompute_fixed b p3) as (_ & Hst & _ & _).
  unfold pre_save; rewrite advance_completed; rewrite Hst; exact (F4 Hc).
Qed.

Lemma completed_never_regresses_witness :
  let p := set_completedAt (Some 1) (sample_prep 3 3 completed) in
  let p' := prep_of (updateQuestionProgress 9 0 (Some false) None None p) in
  p_status p = completed /\
  updateQuestionProgress 9 0 (Some false) None None p = Ok p' /\
  percentComplete (p_progress p') = 67%Z /\
  p_status p' = completed.
Proof.
  intros p p'.
  assert (H1 : p_status p = completed) by reflexivity.
  assert (H2 : updateQuestionProgress 9 0 (Some false) None None p = Ok p')
    by (vm_compute; reflexivity).
  split; [exact H1|split; [exact H2|split; [vm_compute; reflexivity|]]].
  exact (completed_never_regresses 9 0 (Some false) None None p p' H1 H2).
Defined.

End InterviewFacts.

(** * Further properties of the code *)

Module ResumeExtra.
Import Resume.

Lemma find_map_user (g : User -> User) (u : nat) (us : list User) :
  (forall x, u_id (g x) = u_id x) ->
  find (fun x => u_id x =? u) (map g us) = option_map g (find (fun x => u_id x =? u) us).
Proof.
  intros Hg; induction us as [|x us IH]; simpl; [reflexivity|].
  rewrite Hg; destruct (u_id x =? u); [reflexivity|exact IH].
Qed.

Lemma map_r_id_deactivate (v : nat) (rs : list ParsedResume) :
  map r_id (deactivate_all v rs) = map r_id rs.
Proof.
  induction rs as [|r rs IH]; simpl; [reflexivity|].
  destruct (_ && _); simpl; rewrite IH; reflexivity.
Qed.

Lemma NoDup_snoc (n : nat) (l : list nat) : NoDup l -> ~ In n l -> NoDup (l ++ [n]).
Proof.
  intros Hl Hn; apply (Permutation_NoDup (Permutation_cons_append l n)).
  constructor; assumption.
Qed.

Lemma NoDup_map_eq {A B} (f : A -> B) (l : list A) (x y : A) :
  NoDup (map f l) -> In x l -> In y l -> f x = f y -> x = y.
Proof.
  induction l as [|a l IH]; simpl; [tauto|].
  intros Hd Hx Hy Hf; inversion Hd as [|? ? Hna Hd']; subst.
  destruct Hx as [<-|Hx], Hy as [<-|Hy]; auto.
  - exfalso; apply Hna; rewrite Hf; apply in_map; exact Hy.
  - exfalso; apply Hna; rewrite <- Hf; apply in_map; exact Hx.
Qed.

Lemma NoDup_map_filter {A B} (f : A -> B) (P : A -> bool) (l : list A) :
  NoDup (map f l) -> NoDup (map f (filter P l)).
Proof.
  induction l as [|a l IH]; simpl; [auto|].
  intros Hd; inversion Hd as [|? ? Hna Hd']; subst.
  destruct (P a); simpl; [constructor|]; auto.
  intros Hin; apply Hna; apply in_map_iff in Hin as [y [Hy Hin]].
  apply filter_In in Hin as [Hin _]; rewrite <- Hy; apply in_map; exact Hin.
Qed.

Lemma filter_drop_absent (id : nat) (l : list ParsedResume) :
  ~ In id (map r_id l) -> filter (fun r => negb (r_id r =? id)) l = l.
Proof.
  intros Hn; apply forallb_filter_id, forallb_forall; intros x Hx.
  destruct (Nat.eqb_spec (r_id x) id) as [E|E]; [|reflexivity].
  exfalso; apply Hn; rewrite <- E; apply in_map; exact Hx.
Qed.

(** Under distinct ids, [deleteOne({ _id: id })] drops the row with that id. *)
Lemma delete_first_filter (id : nat) (rs : list ParsedResume) :
  NoDup (map r_id rs) -> delete_first id rs = filter (fun r => negb (r_id r =? id)) rs.
Proof.
  induction rs as [|r rs IH]; simpl; [reflexivity|].
  intros Hd; inversion Hd as [|? ? Hna Hd']; subst.
  destruct (Nat.eqb_spec (r_id r) id) as [E|E]; simpl.
  - rewrite filter_drop_absent; [reflexivity|]; rewrite <- E; exact Hna.
  - rewrite IH by exact Hd'; reflexivity.
Qed.

Lemma filter_filter_comm {A} (P Q : A -> bool) (l : list A) :
  filter P (filter Q l) = filter Q (filter P l).
Proof.
  induction l as [|a l IH]; simpl; [reflexivity|].
  destruct (Q a) eqn:EQ, (P a) eqn:EP; simpl; rewrite ?EQ, ?EP, IH; reflexivity.
Qed.

Lemma find_filter_nil {A} (P : A -> bool) (l : list A) : filter P l = [] -> find P l = None.
Proof.
  induction l as [|a l IH]; simpl; [reflexivity|].
  destruct (P a); [discriminate|exact IH].
Qed.

Lemma resume_inv_empty (us : list User) : resume_inv (empty_store us).
Proof.
  split; [constructor|split; [constructor|split]].
  - intros u; unfold count_active, active_of; simpl; lia.
  - intros u usr r _ Hr; unfold active_of in Hr; simpl in Hr; destruct Hr.
Qed.

Lemma resume_inv_deactivate (v : nat) (s : Store) :
  resume_inv s -> resume_inv (upload_deactivate v s).
Proof.
  intros (Hd & Hlt & Hc & Hl).
  split; [|split; [|split]].
  - unfold upload_deactivate; cbn [resumes]; rewrite map_r_id_deactivate; exact Hd.
  - unfold upload_deactivate; cbn [resumes next_id].
    rewrite Forall_forall in *; intros x Hx; unfold deactivate_all in Hx.
    apply in_map_iff in Hx as [y [<- Hy]]; specialize (Hlt y Hy).
    destruct (_ && _); simpl; lia.
  - intros u; unfold count_active; rewrite ResumeFacts.active_after_deactivate.
    destruct (u =? v); [simpl; lia|apply Hc].
  - intros u usr r Hf Hr; rewrite ResumeFacts.active_after_deactivate in Hr.
    destruct (u =? v); [destruct Hr|].
    exact (Hl u usr r Hf Hr).
Qed.

Lemma resume_inv_create_link (v : nat) (d : UploadInput) (s s2 : Store) (rid : nat) :
  resume_inv s -> active_of v s = [] -> upload_create v d s = Some (s2, rid) ->
  resume_inv (upload_link v rid s2).
Proof.
  intros (Hd & Hlt & Hc & Hl) Hv H.
  pose proof (fun u => ResumeFacts.active_after_create u v d s s2 rid H) as Ha.
  destruct (Ha v) as (_ & -> & Hus & Hn & Hrs).
  split; [|split; [|split]]; unfold upload_link; cbn [resumes next_id users].
  - rewrite Hrs, map_app; simpl; apply NoDup_snoc; [exact Hd|].
    intros Hin; apply in_map_iff in Hin as [r [Er Hr]].
    rewrite Forall_forall in Hlt; specialize (Hlt r Hr); lia.
  - rewrite Hrs, Hn; apply Forall_app; split; [|constructor; [simpl; lia|constructor]].
    rewrite Forall_forall in *; intros x Hx; specialize (Hlt x Hx); lia.
  - intros u; unfold count_active; change (length (active_of u s2) <= 1).
    destruct (Ha u) as (Hau & _).
    rewrite Hau, length_app; destruct (Nat.eqb_spec u v) as [<-|Hne].
    + rewrite Hv; simpl; lia.
    + specialize (Hc u); unfold count_active in Hc; simpl; lia.
  - intros u usr r Hf Hr.
    change (In r (active_of u s2)) in Hr; destruct (Ha u) as (Hau & _); rewrite Hau in Hr.
    unfold find_user in Hf; cbn [users] in Hf; unfold set_active_resume in Hf.
    rewrite find_map_user in Hf by (intros x; destruct (u_id x =? v); reflexivity).
    rewrite Hus in Hf.
    destruct (find (fun x => u_id x =? u) (users s)) as [x|] eqn:F; [|discriminate].
    simpl in Hf; inversion Hf; subst usr; clear Hf.
    pose proof (find_some _ _ F) as [_ Fx]; apply Nat.eqb_eq in Fx.
    rewrite Fx; destruct (Nat.eqb_spec u v) as [->|Hne].
    + rewrite Hv in Hr; destruct Hr as [<-|[]]; reflexivity.
    + rewrite app_nil_r in Hr; exact (Hl u x r F Hr).
Qed.

(** Whatever [uploadResume] answers, the store it leaves keeps the
    invariant. *)
Lemma resume_inv_upload (v : nat) (p : option UploadInput) (s : Store) :
  resume_inv s ->
  resume_inv (match uploadResume (Some v) true p s with Ok s' => s' | Err _ s' => s' end).
Proof.
  intros Hs; unfold uploadResume; simpl.
  destruct p as [d|]; [|exact Hs].
  pose proof (resume_inv_deactivate v s Hs) as Hs1.
  destruct (upload_create v d (upload_deactivate v s)) as [[s2 rid]|] eqn:E; [|exact Hs1].
  apply (resume_inv_create_link v d (upload_deactivate v s) s2 rid Hs1); [|exact E].
  rewrite ResumeFacts.active_after_deactivate, Nat.eqb_refl; reflexivity.
Qed.

Lemma find_owned_resume (v id : nat) (rs : list ParsedResume) (r : ParsedResume) :
  find (fun r => (r_id r =? id) && (r_userId r =? v)) rs = Some r ->
  In r rs /\ r_id r = id /\ r_userId r = v.
Proof.
  intros F; apply find_some in F as [Hin E].
  apply andb_true_iff in E as [E1 E2]; apply Nat.eqb_eq in E1, E2; auto.
Qed.

(** After a deletion the active resumes of [u] are the old ones minus the
    deleted id. *)
Lemma active_after_delete (u v id : nat) (s s' : Store) :
  NoDup (map r_id (resumes s)) -> deleteResume (Some v) id s = Ok s' ->
  active_of u s' = filter (fun r => negb (r_id r =? id)) (active_of u s).
Proof.
  intros Hd H; unfold deleteResume in H.
  destruct (find _ (resumes s)) as [r|]; [|discriminate].
  unfold active_of.
  destruct (r_isActive r); inversion H; subst s'; clear H; simpl;
    rewrite delete_first_filter by exact Hd; apply filter_filter_comm.
Qed.

Lemma resume_inv_delete (v id : nat) (s s' : Store) :
  resume_inv s -> deleteResume (Some v) id s = Ok s' -> resume_inv s'.
Proof.
  intros (Hd & Hlt & Hc & Hl) H.
  pose proof (fun u => active_after_delete u v id s s' Hd H) as Ha.
  unfold deleteResume in H.
  destruct (find _ (resumes s)) as [r|] eqn:F; [|discriminate].
  destruct (find_owned_resume v id (resumes s) r F) as (Hr & Ri & Ru).
  (* an active resume of [u] with the deleted id is [r] *)
  assert (Hsame : forall u y, In y (active_of u s) -> r_id y = id -> y = r).
  { intros u y Hy Ey; unfold active_of in Hy; apply filter_In in Hy as [Hy _].
    apply (NoDup_map_eq r_id (resumes s)); auto; congruence. }
  assert (Hkeep : forall u, (u <> v \/ r_isActive r = false) ->
                  active_of u s' = active_of u s).
  { intros u Hu; rewrite Ha; apply forallb_filter_id, forallb_forall; intros y Hy.
    destruct (Nat.eqb_spec (r_id y) id) as [E|E]; [|reflexivity].
    exfalso; pose proof (Hsame u y Hy E) as ->.
    unfold active_of in Hy; apply filter_In in Hy as [_ Hy].
    apply andb_true_iff in Hy as [Hy1 Hy2]; apply Nat.eqb_eq in Hy1.
    destruct Hu as [Hu|Hu]; congruence. }
  assert (Hres : resumes s' = filter (fun r => negb (r_id r =? id)) (resumes s) /\
                 next_id s' = next_id s).
  { destruct (r_isActive r); inversion H; subst s'; simpl;
      rewrite delete_first_filter by exact Hd; auto. }
  destruct Hres as [Hres Hn].
  split; [|split; [|split]].
  - rewrite Hres; apply NoDup_map_filter; exact Hd.
  - rewrite Hres, Hn; rewrite Forall_forall in *; intros x Hx.
    apply filter_In in Hx as [Hx _]; auto.
  - intros u; unfold count_active; rewrite Ha.
    eapply Nat.le_trans; [apply filter_length_le|apply Hc].
  - intros u usr y Hf Hy.
    destruct (r_isActive r) eqn:Ra.
    + inversion H; subst s'; clear H.
      unfold find_user in Hf; simpl in Hf; unfold clear_active_resume in Hf.
      rewrite find_map_user in Hf by (intros x; destruct (u_id x =? v); reflexivity).
      destruct (find (fun x => u_id x =? u) (users s)) as [x|] eqn:Fu; [|discriminate].
      simpl in Hf; inversion Hf; subst usr; clear Hf.
      pose proof (find_some _ _ Fu) as [_ Fx]; apply Nat.eqb_eq in Fx; rewrite Fx.
      destruct (Nat.eqb_spec u v) as [->|Huv].
      * (* the deleted resume was the user's only active one *)
        exfalso; rewrite Ha in Hy.
        assert (Hin : In r (active_of v s))
          by (unfold active_of; apply filter_In; split; [exact Hr|rewrite Ru, Ra, Nat.eqb_refl; reflexivity]).
        specialize (Hc v); unfold count_active in Hc.
        destruct (active_of v s) as [|z [|z' l]]; [destruct Hin| |simpl in Hc; lia].
        destruct Hin as [<-|[]]; simpl in Hy; rewrite Ri, Nat.eqb_refl in Hy; destruct Hy.
      * rewrite (Hkeep u (or_introl Huv)) in Hy; exact (Hl u x y Fu Hy).
    + rewrite (Hkeep u (or_intror eq_refl)) in Hy.
      inversion H; subst s'; clear H.
      exact (Hl u usr y Hf Hy).
Qed.

Lemma resume_inv_handle (rq : ResumeRequest) (s : Store) :
  resume_inv s -> resume_inv (handle_resume rq s).
Proof.
  intros Hs; unfold handle_resume; destruct rq as [u p|u id].
  - exact (resume_inv_upload u p s Hs).
  - destruct (deleteResume (Some u) id s) as [s'|c s'] eqn:E.
    + exact (resume_inv_delete u id s s' Hs E).
    + unfold deleteResume in E; destruct (find _ _) as [r|]; [destruct (r_isActive r)|];
        inversion E; subst; exact Hs.
Qed.

Lemma resume_inv_run (rqs : list ResumeRequest) (s : Store) :
  resume_inv s -> resume_inv (run_resume rqs s).
Proof.
  revert s; induction rqs as [|rq rqs IH]; intros s Hs; simpl; [exact Hs|].
  apply IH, resume_inv_handle, Hs.
Qed.

(** Starting from an empty resume collection, when upload and delete
    requests are handled one at a time (an upload's [create] may fail
    validation, its GridFS upload or PDF parse may throw), no user ever has
    two active resumes, and a user's active resume, when there is one, is
    the resume the user's [activeResumeId] names. *)
Theorem resume_link_invariant (us : list User) (rqs : list ResumeRequest) (u : nat) :
  count_active u (run_resume rqs (empty_store us)) <= 1 /\
  (forall usr r, find_user u (run_resume rqs (empty_store us)) = Some usr ->
     In r (active_of u (run_resume rqs (empty_store us))) ->
     u_activeResumeId usr = Some (r_id r)).
Proof.
  destruct (resume_inv_run rqs (empty_store us) (resume_inv_empty us)) as (_ & _ & Hc & Hl).
  split; [apply Hc|apply Hl].
Qed.

(** Deleting a user's active resume leaves the user with no active resume
    and [activeResumeId] [null], and [getResume] answers [404], even when
    older resumes of the user remain: none of them is re-activated. Every
    other resume is kept. *)
Theorem delete_active_resume_unlinks (u id : nat) (r : ParsedResume) (s s' : Store) :
  NoDup (map r_id (resumes s)) -> count_active u s <= 1 ->
  find (fun r => (r_id r =? id) && (r_userId r =? u)) (resumes s) = Some r ->
  r_isActive r = true ->
  deleteResume (Some u) id s = Ok s' ->
  active_of u s' = [] /\
  getResume (Some u) s' = Err 404 None /\
  (forall usr, find_user u s' = Some usr -> u_activeResumeId usr = None) /\
  (forall x, In x (resumes s) -> r_id x <> id -> In x (resumes s')).
Proof.
  intros Hd Hc F Ra H.
  destruct (find_owned_resume u id (resumes s) r F) as (Hr & Ri & Ru).
  assert (Hact : active_of u s' = []).
  { rewrite (active_after_delete u u id s s' Hd H).
    assert (Hin : In r (active_of u s))
      by (unfold active_of; apply filter_In; split; [exact Hr|rewrite Ru, Ra, Nat.eqb_refl; reflexivity]).
    unfold count_active in Hc.
    destruct (active_of u s) as [|y [|z l]]; [destruct Hin| |simpl in Hc; lia].
    destruct Hin as [<-|[]]; simpl; rewrite Ri, Nat.eqb_refl; reflexivity. }
  unfold deleteResume in H; rewrite F, Ra in H; inversion H; subst s'; clear H.
  split; [exact Hact|split; [|split]].
  - unfold getResume, find_active; rewrite find_filter_nil; [reflexivity|exact Hact].
  - intros usr Hf; unfold find_user in Hf; simpl in Hf; unfold clear_active_resume in Hf.
    rewrite find_map_user in Hf by (intros x; destruct (u_id x =? u); reflexivity).
    destruct (find (fun x => u_id x =? u) (users s)) as [x|] eqn:Fu; [|discriminate].
    simpl in Hf; inversion Hf; subst usr.
    pose proof (find_some _ _ Fu) as [_ Fx]; rewrite Fx; reflexivity.
  - intros x Hx Hne; simpl; rewrite delete_first_filter by exact Hd.
    apply filter_In; split; [exact Hx|].
    destruct (Nat.eqb_spec (r_id x) id); [contradiction|reflexivity].
Qed.

Lemma delete_active_resume_unlinks_witness :
  let s := run_resume [RUpload 1 (Some sample_upload); RUpload 1 (Some sample_upload)]
                      (empty_store [mkUser 1 None]) in
  let s' := mkStore [mkResume 0 1 false] [mkUser 1 None] 2 in
  NoDup (map r_id (resumes s)) /\ deleteResume (Some 1) 1 s = Ok s' /\
  getResume (Some 1) s' = Err 404 None.
Proof.
  intros s s'.
  assert (H1 : NoDup (map r_id (resumes s))) by (vm_compute; repeat constructor; simpl; intuition discriminate).
  assert (H1' : count_active 1 s <= 1) by (vm_compute; lia).
  assert (H2 : find (fun r => (r_id r =? 1) && (r_userId r =? 1)) (resumes s) = Some (mkResume 1 1 true))
    by (vm_compute; reflexivity).
  assert (H3 : deleteResume (Some 1) 1 s = Ok s') by (vm_compute; reflexivity).
  split; [exact H1|split; [exact H3|]].
  exact (proj1 (proj2 (delete_active_resume_unlinks 1 1 (mkResume 1 1 true) s s' H1 H1' H2 eq_refl H3))).
Defined.

End ResumeExtra.

Module JobExtra.
Import Job.


Lemma insert_desc_perm (m : MatchResult) (l : list MatchResult) :
  Permutation (insert_desc m l) (m :: l).
Proof.
  induction l as [|x l IH]; simpl; [reflexivity|].
  destruct (Qlt_le_dec (mr_score m) (mr_score x)); [|reflexivity].
  eapply perm_trans; [apply perm_skip, IH|apply perm_swap].
Qed.

Lemma sort_desc_perm (l : list MatchResult) : Permutation (sort_desc l) l.
Proof.
  induction l as [|m l IH]; simpl; [reflexivity|].
  eapply perm_trans; [apply insert_desc_perm|apply perm_skip, IH].
Qed.

Lemma insert_desc_sorted (m : MatchResult) (l : list MatchResult) :
  Sorted score_desc l -> Sorted score_desc (insert_desc m l).
Proof.
  induction l as [|x l IH]; simpl; intros Hs; [repeat constructor|].
  destruct (Qlt_le_dec (mr_score m) (mr_score x)) as [Hlt|Hle].
  - apply Sorted_inv in Hs as [Hs Hh]; constructor; [apply IH, Hs|].
    destruct l as [|y l]; simpl; [constructor; unfold score_desc; apply Qlt_le_weak, Hlt|].
    destruct (Qlt_le_dec (mr_score m) (mr_score y)); constructor;
      [inversion Hh; assumption|unfold score_desc; apply Qlt_le_weak, Hlt].
  - constructor; [exact Hs|constructor; unfold score_desc; exact Hle].
Qed.

Lemma sort_desc_sorted (l : list MatchResult) : Sorted score_desc (sort_desc l).
Proof. induction l as [|m l IH]; simpl; [constructor|apply insert_desc_sorted, IH]. Qed.

Lemma score_desc_trans : Transitive score_desc.
Proof. intros a b c H1 H2; unfold score_desc in *; eapply Qle_trans; eassumption. Qed.

Lemma firstn_skipn_sorted {A} (R : A -> A -> Prop) (n : nat) (l : list A) (a b : A) :
  StronglySorted R l -> In a (firstn n l) -> In b (skipn n l) -> R a b.
Proof.
  revert l; induction n as [|n IH]; intros l Hs Ha Hb; [destruct Ha|].
  destruct l as [|x l]; [destruct Ha|].
  apply StronglySorted_inv in Hs as [Hs Hx]; simpl in Ha, Hb.
  destruct Ha as [<-|Ha].
  - rewrite Forall_forall in Hx; apply Hx.
    rewrite <- (firstn_skipn n l); apply in_or_app; right; exact Hb.
  - exact (IH l Hs Ha Hb).
Qed.

Lemma to_save_shape (uid next : nat) (ms : list MatchResult) (r : JobMatch) :
  In r (to_save uid next ms) ->
  (exists m, In m ms /\ jm_matchScore r = mr_score m) /\
  jm_userId r = uid /\ jm_applied r = false /\ jm_appliedDate r = None /\
  jm_applicationStatus r = not_applied /\ jm_isSaved r = false /\ jm_isHidden r = false /\
  next <= jm_id r < next + length ms.
Proof.
  revert next; induction ms as [|m ms IH]; intros next; simpl; [tauto|].
  intros [<-|H].
  - simpl; split; [exists m; auto|]; repeat split; try reflexivity; lia.
  - destruct (IH (S next) H) as ((m' & ? & ?) & ? & ? & ? & ? & ? & ? & ? & ?).
    split; [exists m'; auto|]; repeat split; auto; lia.
Qed.

Lemma length_to_save (uid next : nat) (ms : list MatchResult) :
  length (to_save uid next ms) = length ms.
Proof. revert next; induction ms; intros next; simpl; auto. Qed.

Lemma find_bump_discovered (uid n now : nat) (an : list Analytics) (a : Analytics) :
  find (fun a => an_userId a =? uid) an = Some a ->
  find (fun a => an_userId a =? uid) (bump_discovered uid n now an)
  = Some (mkAn uid (totalJobsDiscovered a + n) (totalJobsApplied a) (Some now)).
Proof.
  induction an as [|x an IH]; simpl; [discriminate|].
  destruct (an_userId x =? uid) eqn:E; simpl.
  - intros H; inversion H; subst; rewrite Nat.eqb_refl; reflexivity.
  - rewrite E; exact IH.
Qed.

(** [matchMultipleJobs] returns the matches of all postings, each scored by
    [matchJob] (a failed model call scores 0), ordered by decreasing
    [matchScore]. *)
Theorem matchMultipleJobs_sorted_perm (jobs : list (string * option (option Q))) :
  Sorted score_desc (matchMultipleJobs jobs) /\
  Permutation (matchMultipleJobs jobs) (map (fun '(t, r) => matchJob t r) jobs).
Proof.
  unfold matchMultipleJobs; split; [apply sort_desc_sorted|apply sort_desc_perm].
Qed.

(** A [discoverJobs] call that finds no posting changes nothing. Otherwise
    it appends [min 20 n] new rows for [n] postings, all owned by the caller,
    not applied, not saved, not hidden, with fresh ids; every posting left
    out scores no higher than any saved one; and the caller's
    [totalJobsDiscovered] grows by [n], the number of all postings matched,
    not only the saved ones. *)
Theorem discoverJobs_saves_top20 (now u : nat) (sk : option (list string))
    (jobs : list (string * option (option Q))) (s s' : Store) :
  discoverJobs now (Some u) sk jobs s = Ok s' ->
  (jobs = [] -> s' = s) /\
  (jobs <> [] ->
   exists rows,
     matches s' = matches s ++ rows /\
     length rows = Nat.min 20 (length jobs) /\
     (forall r, In r rows ->
        jm_userId r = u /\ jm_applied r = false /\ jm_applicationStatus r = not_applied /\
        jm_isSaved r = false /\ jm_isHidden r = false /\ next_id s <= jm_id r < next_id s') /\
     (forall r m, In r rows -> In m (skipn 20 (matchMultipleJobs jobs)) ->
        (mr_score m <= jm_matchScore r)%Q) /\
     (forall a, find (fun a => an_userId a =? u) (analytics s) = Some a ->
        find (fun a => an_userId a =? u) (analytics s')
        = Some (mkAn u (totalJobsDiscovered a + length jobs) (totalJobsApplied a) (Some now)))).
Proof.
  unfold discoverJobs; intros H.
  destruct sk as [[|k ks]|]; try discriminate.
  destruct jobs as [|j js]; [inversion H; split; [reflexivity|congruence]|].
  split; [discriminate|intros _].
  set (ms := matchMultipleJobs (j :: js)) in *.
  set (rows := to_save u (next_id s) (firstn 20 ms)) in *.
  destruct (forallb valid_match rows); [|discriminate].
  inversion H; subst s'; clear H.
  assert (Hlen : length ms = length (j :: js))
    by (unfold ms, matchMultipleJobs; rewrite (Permutation_length (sort_desc_perm _)), length_map; reflexivity).
  exists rows; simpl; split; [reflexivity|split; [|split; [|split]]].
  - unfold rows; rewrite length_to_save, length_firstn, Hlen; reflexivity.
  - intros r Hr; destruct (to_save_shape _ _ _ _ Hr) as (_ & ? & ? & _ & ? & ? & ? & ? & ?).
    pose proof (length_to_save u (next_id s) (firstn 20 ms)) as Hl; fold rows in Hl.
    repeat split; auto; lia.
  - intros r m Hr Hm; destruct (to_save_shape _ _ _ _ Hr) as ((m' & Hm' & ->) & _).
    apply (firstn_skipn_sorted score_desc 20 ms m' m); auto.
    apply Sorted_StronglySorted; [exact score_desc_trans|apply sort_desc_sorted].
  - intros a Ha; rewrite Hlen; apply find_bump_discovered, Ha.
Qed.

Lemma discoverJobs_saves_top20_witness :
  let s := mkStore [] [mkAn 7 0 0 None] 0 in
  let jobs := [("A"%string, Some (Some 50%Q)); ("B"%string, None)] in
  discoverJobs 3 (Some 7) (Some ["go"%string]) jobs s
  = Ok (store_of (discoverJobs 3 (Some 7) (Some ["go"%string]) jobs s)) /\
  find (fun a => an_userId a =? 7) (analytics (store_of (discoverJobs 3 (Some 7) (Some ["go"%string]) jobs s)))
  = Some (mkAn 7 2 0 (Some 3)).
Proof.
  intros s jobs.
  assert (H : discoverJobs 3 (Some 7) (Some ["go"%string]) jobs s
              = Ok (store_of (discoverJobs 3 (Some 7) (Some ["go"%string]) jobs s)))
    by (vm_compute; reflexivity).
  split; [exact H|].
  destruct (proj2 (discoverJobs_saves_top20 3 7 _ jobs s _ H) ltac:(discriminate))
    as (rows & _ & _ & _ & _ & Ha).
  exact (Ha (mkAn 7 0 0 None) eq_refl).
Defined.

Lemma evolves_refl (m : JobMatch) : evolves m m.
Proof. repeat split; auto. Qed.

Lemma evolves_trans (a b c : JobMatch) : evolves a b -> evolves b c -> evolves a c.
Proof.
  intros (? & ? & ? & ? & ? & ? & ? & ?) (? & ? & ? & ? & ? & ? & ? & ?).
  repeat split; try congruence; auto.
Qed.

Lemma Forall2_evolves_refl (l : list JobMatch) : Forall2 evolves l l.
Proof. induction l; constructor; auto using evolves_refl. Qed.

Lemma Forall2_evolves_trans (a b c : list JobMatch) :
  Forall2 evolves a b -> Forall2 evolves b c -> Forall2 evolves a c.
Proof.
  intros H1; revert c; induction H1; intros c H2; inversion H2; subst; constructor;
    eauto using evolves_trans.
Qed.

Lemma update_evolves (uid id : nat) (f : JobMatch -> JobMatch) (s : Store) (ms' : list JobMatch) :
  (forall m, evolves m (f m)) ->
  find_one_and_update uid id f s = Some ms' -> Forall2 evolves (matches s) ms'.
Proof.
  intros Hf; unfold find_one_and_update.
  destruct (find (owned uid id) (matches s)); [|discriminate].
  intros H; inversion H; subst; clear H.
  induction (matches s) as [|m l IH]; simpl; constructor; [|exact IH].
  destruct (owned uid id m); [apply Hf|apply evolves_refl].
Qed.

Ltac solve_evolves :=
  match goal with
  | |- context [find_one_and_update ?uid ?id ?f ?s] =>
      destruct (find_one_and_update uid id f s) as [ms'|] eqn:Hu; simpl;
      [exists ms', []; rewrite app_nil_r; split; [reflexivity|];
       apply (update_evolves uid id f s ms'); [|exact Hu];
       intros m; repeat split; simpl; auto; discriminate
      |exists (matches s), []; rewrite app_nil_r; split; [reflexivity|apply Forall2_evolves_refl]]
  end.

Lemma handle_evolves (now : nat) (rq : Request) (s : Store) :
  exists old rows, matches (handle now rq s) = old ++ rows /\ Forall2 evolves (matches s) old.
Proof.
  destruct rq as [u sk js|u id n|u id st n|u id|u id]; unfold handle.
  - destruct (discoverJobs now u sk js s) as [s'|c s'] eqn:E; simpl.
    + unfold discoverJobs in E.
      destruct u as [uid|]; [|discriminate].
      destruct sk as [[|k ks]|]; try discriminate.
      destruct js as [|j js'].
      * inversion E; subst s'; exists (matches s), []; rewrite app_nil_r;
          split; [reflexivity|apply Forall2_evolves_refl].
      * destruct (forallb _ _); [|discriminate]; inversion E; subst s'; simpl.
        eexists; eexists; split; [reflexivity|apply Forall2_evolves_refl].
    + assert (s' = s).
      { unfold discoverJobs in E; destruct u as [uid|]; [|inversion E; reflexivity].
        destruct sk as [[|k ks]|]; try (inversion E; reflexivity).
        destruct js as [|j js']; [discriminate|].
        destruct (forallb _ _); inversion E; reflexivity. }
      subst; exists (matches s), []; rewrite app_nil_r; split; [reflexivity|apply Forall2_evolves_refl].
  - unfold markAsApplied; destruct u as [uid|];
      [|exists (matches s), []; rewrite app_nil_r; split; [reflexivity|apply Forall2_evolves_refl]].
    solve_evolves.
  - unfold updateApplicationStatus; destruct u as [uid|];
      [|exists (matches s), []; rewrite app_nil_r; split; [reflexivity|apply Forall2_evolves_refl]].
    destruct st as [st|];
      [|exists (matches s), []; rewrite app_nil_r; split; [reflexivity|apply Forall2_evolves_refl]].
    solve_evolves.
  - unfold toggleSaveJob; destruct u as [uid|];
      [|exists (matches s), []; rewrite app_nil_r; split; [reflexivity|apply Forall2_evolves_refl]].
    solve_evolves.
  - unfold hideJob; destruct u as [uid|];
      [|exists (matches s), []; rewrite app_nil_r; split; [reflexivity|apply Forall2_evolves_refl]].
    solve_evolves.
Qed.

(** No job endpoint ever deletes a [JobMatch] row or changes its id, owner,
    title, [matchScore] or [overallFit]; over any run of requests the old
    rows stay, in order, in front of the new ones, and a row once applied,
    hidden, or with an [appliedDate] stays so. *)
Theorem job_rows_evolve (rqs : list (nat * Request)) (s : Store) :
  exists old rows, matches (run rqs s) = old ++ rows /\ Forall2 evolves (matches s) old.
Proof.
  revert s; induction rqs as [|[now rq] rqs IH]; intros s; simpl.
  - exists (matches s), []; rewrite app_nil_r; split; [reflexivity|apply Forall2_evolves_refl].
  - destruct (handle_evolves now rq s) as (o1 & r1 & E1 & F1).
    destruct (IH (handle now rq s)) as (o2 & r2 & E2 & F2).
    rewrite E1 in F2; apply Forall2_app_inv_l in F2 as (o2a & o2b & Fa & Fb & ->).
    exists o2a, (o2b ++ r2); split; [rewrite E2, app_assoc; reflexivity|].
    eapply Forall2_evolves_trans; eassumption.
Qed.

Lemma filter_map_other {A} (P : A -> bool) (g : A -> A) (l : list A) :
  (forall a, P (g a) = P a) -> (forall a, P a = true -> g a = a) ->
  filter P (map g l) = filter P l.
Proof.
  intros H1 H2; induction l as [|a l IH]; simpl; [reflexivity|].
  rewrite H1; destruct (P a) eqn:E; [rewrite (H2 a E), IH; reflexivity|exact IH].
Qed.

Lemma find_map_other {A} (P : A -> bool) (g : A -> A) (l : list A) :
  (forall a, P (g a) = P a) -> (forall a, P a = true -> g a = a) ->
  find P (map g l) = find P l.
Proof.
  intros H1 H2; induction l as [|a l IH]; simpl; [reflexivity|].
  rewrite H1; destruct (P a) eqn:E; [rewrite (H2 a E); reflexivity|exact IH].
Qed.

Lemma update_isolated (uid v id : nat) (f : JobMatch -> JobMatch) (s : Store) (ms' : list JobMatch) :
  uid <> v -> (forall m, jm_userId (f m) = jm_userId m) ->
  find_one_and_update uid id f s = Some ms' ->
  filter (fun m => jm_userId m =? v) ms' = filter (fun m => jm_userId m =? v) (matches s).
Proof.
  intros Huv Hf; unfold find_one_and_update.
  destruct (find (owned uid id) (matches s)); [|discriminate].
  intros H; inversion H; subst; clear H.
  apply filter_map_other.
  - intros m; destruct (owned uid id m); [rewrite Hf|]; reflexivity.
  - intros m Hm; destruct (owned uid id m) eqn:E; [|reflexivity].
    exfalso; unfold owned in E; apply andb_true_iff in E as [_ E].
    apply Nat.eqb_eq in E, Hm; congruence.
Qed.

Lemma bump_isolated_applied (uid v now : nat) (an : list Analytics) :
  uid <> v ->
  find (fun a => an_userId a =? v) (bump_applied uid now an) = find (fun a => an_userId a =? v) an.
Proof.
  intros Huv; apply find_map_other.
  - intros a; destruct (Nat.eqb_spec (an_userId a) uid) as [E|E]; simpl; [rewrite E|]; reflexivity.
  - intros a Ha; apply Nat.eqb_eq in Ha.
    replace (an_userId a =? uid) with false by (symmetry; apply Nat.eqb_neq; congruence); reflexivity.
Qed.

Lemma bump_isolated_discovered (uid v n now : nat) (an : list Analytics) :
  uid <> v ->
  find (fun a => an_userId a =? v) (bump_discovered uid n now an)
  = find (fun a => an_userId a =? v) an.
Proof.
  intros Huv; apply find_map_other.
  - intros a; destruct (Nat.eqb_spec (an_userId a) uid) as [E|E]; simpl; [rewrite E|]; reflexivity.
  - intros a Ha; apply Nat.eqb_eq in Ha.
    replace (an_userId a =? uid) with false by (symmetry; apply Nat.eqb_neq; congruence); reflexivity.
Qed.

Ltac solve_isolated :=
  match goal with
  | |- context [find_one_and_update ?uid ?id ?f ?s] =>
      destruct (find_one_and_update uid id f s) as [ms'|] eqn:Hfu; simpl;
      [split; [apply (update_isolated uid _ id f s ms'); [congruence|intros; reflexivity|exact Hfu]|]
      |split; reflexivity]
  end.

Lemma handle_isolated (now v : nat) (rq : Request) (s : Store) :
  req_user rq <> Some v ->
  filter (fun m => jm_userId m =? v) (matches (handle now rq s))
  = filter (fun m => jm_userId m =? v) (matches s) /\
  find (fun a => an_userId a =? v) (analytics (handle now rq s))
  = find (fun a => an_userId a =? v) (analytics s).
Proof.
  destruct rq as [u sk js|u id n|u id st n|u id|u id]; simpl; intros Hu; unfold handle.
  - unfold discoverJobs; destruct u as [uid|]; [|split; reflexivity].
    destruct sk as [[|k ks]|]; try (split; reflexivity).
    destruct js as [|j js']; [split; reflexivity|].
    destruct (forallb _ _); simpl; [|split; reflexivity].
    split; [|apply bump_isolated_discovered; congruence].
    rewrite filter_app; match goal with |- _ ++ ?x = _ => replace x with (@nil JobMatch) end;
      [apply app_nil_r|].
    symmetry; apply forallb_filter_id in Hu || idtac.
    match goal with |- filter ?P ?l = [] =>
      assert (Hn : forall r, In r l -> P r = false) end.
    { intros r Hr; destruct (to_save_shape _ _ _ _ Hr) as (_ & -> & _).
      apply Nat.eqb_neq; congruence. }
    clear -Hn; induction (to_save _ _ _) as [|r l IH]; simpl; [reflexivity|].
    rewrite (Hn r (or_introl eq_refl)); apply IH; intros; apply Hn; right; assumption.
  - unfold markAsApplied; destruct u as [uid|]; [|split; reflexivity].
    destruct (find_one_and_update uid id _ s) as [ms'|] eqn:Hf; simpl; [|split; reflexivity].
    split; [apply (update_isolated uid v id (apply_update now n) s ms'); [congruence|intros; reflexivity|exact Hf]|].
    apply bump_isolated_applied; congruence.
  - unfold updateApplicationStatus; destruct u as [uid|]; [|split; reflexivity].
    destruct st as [st|]; [|split; reflexivity].
    solve_isolated; reflexivity.
  - unfold toggleSaveJob; destruct u as [uid|]; [|split; reflexivity].
    solve_isolated; reflexivity.
  - unfold hideJob; destruct u as [uid|]; [|split; reflexivity].
    solve_isolated; reflexivity.
Qed.

(** Requests made by other users (or unauthenticated ones) never change a
    user's [JobMatch] rows nor the user's analytics: over any run of such
    requests, the rows owned by [v] and [v]'s analytics stay as they were. *)
Theorem job_requests_isolated (v : nat) (rqs : list (nat * Request)) (s : Store) :
  Forall (fun '(_, rq) => req_user rq <> Some v) rqs ->
  filter (fun m => jm_userId m =? v) (matches (run rqs s))
  = filter (fun m => jm_userId m =? v) (matches s) /\
  find (fun a => an_userId a =? v) (analytics (run rqs s))
  = find (fun a => an_userId a =? v) (analytics s).
Proof.
  revert s; induction rqs as [|[now rq] rqs IH]; intros s Hall; simpl; [split; reflexivity|].
  inversion Hall as [|? ? Hrq Hrest]; subst.
  destruct (IH (handle now rq s) Hrest) as [E1 E2].
  destruct (handle_isolated now v rq s Hrq) as [F1 F2].
  split; congruence.
Qed.

Lemma job_requests_isolated_witness :
  let s := mkStore [mkJM 1 7 "A" 50 moderate false None not_applied None false false;
                    mkJM 2 8 "B" 70 good false None not_applied None false false]
                   [mkAn 7 1 0 None; mkAn 8 1 0 None] 3 in
  let rqs := [(5, Apply (Some 8) 2 None); (6, Hide (Some 8) 2); (7, Apply (Some 8) 1 None)] in
  filter (fun m => jm_userId m =? 7) (matches (run rqs s))
  = [mkJM 1 7 "A" 50 moderate false None not_applied None false false].
Proof.
  intros s rqs.
  assert (H : Forall (fun '(_, rq) => req_user rq <> Some 7) rqs)
    by (repeat constructor; discriminate).
  exact (proj1 (job_requests_isolated 7 rqs s H)).
Defined.

Lemma set_flags_owned (saved hidden : JobMatch -> bool) (uid id : nat) (m : JobMatch) :
  owned uid id (set_flags saved hidden m) = owned uid id m.
Proof. reflexivity. Qed.

Lemma find_owned_map (uid id : nat) (g : JobMatch -> JobMatch) (l : list JobMatch) :
  (forall m, owned uid id (g m) = owned uid id m) ->
  find (owned uid id) l <> None ->
  find (owned uid id) (map (fun m => if owned uid id m then g m else m) l) <> None.
Proof.
  intros Hg; induction l as [|m l IH]; simpl; [auto|].
  destruct (owned uid id m) eqn:E; [rewrite Hg, E; discriminate|rewrite E; exact IH].
Qed.

(** Toggling the save flag of a job twice gives back the store it started
    from. *)
Theorem toggleSaveJob_involutive (u id : nat) (s s1 : Store) :
  toggleSaveJob (Some u) id s = Ok s1 -> toggleSaveJob (Some u) id s1 = Ok s.
Proof.
  intros H; unfold toggleSaveJob, find_one_and_update in *.
  destruct (find (owned u id) (matches s)) as [m0|] eqn:F; [|discriminate].
  inversion H; subst s1; clear H; cbn [matches analytics next_id].
  set (g := fun m => if owned u id m
                     then set_flags (fun m => negb (jm_isSaved m)) jm_isHidden m else m).
  assert (Hgg : forall m, g (g m) = m).
  { intros m; unfold g; destruct (owned u id m) eqn:E.
    - rewrite set_flags_owned, E; destruct m as [? ? ? ? ? ? ? ? ? [] ?]; reflexivity.
    - rewrite E; reflexivity. }
  destruct (find (owned u id) (map g (matches s))) as [m1|] eqn:F1.
  - rewrite map_map, (map_ext (fun x => g (g x)) (fun x => x) Hgg), map_id.
    destruct s; reflexivity.
  - exfalso; revert F1; apply find_owned_map; [intros; reflexivity|congruence].
Qed.

Lemma toggleSaveJob_involutive_witness :
  let s := mkStore [mkJM 1 7 "A" 50 moderate false None not_applied None false false] [] 2 in
  toggleSaveJob (Some 7) 1 s = Ok (store_of (toggleSaveJob (Some 7) 1 s)) /\
  toggleSaveJob (Some 7) 1 (store_of (toggleSaveJob (Some 7) 1 s)) = Ok s.
Proof.
  intros s.
  assert (H : toggleSaveJob (Some 7) 1 s = Ok (store_of (toggleSaveJob (Some 7) 1 s)))
    by (vm_compute; reflexivity).
  split; [exact H|exact (toggleSaveJob_involutive 7 1 s _ H)].
Defined.


Lemma sorts_before_true (a b : JobMatch) :
  sorts_before a b = true -> score_desc_jm a b.
Proof.
  unfold sorts_before, score_desc_jm.
  destruct (Qeq_bool (jm_matchScore a) (jm_matchScore b)) eqn:E; intros H.
  - apply Qeq_bool_eq in E; rewrite E; apply Qle_refl.
  - apply Qle_bool_iff, H.
Qed.

Lemma sorts_before_false (a b : JobMatch) :
  sorts_before a b = false -> score_desc_jm b a.
Proof.
  unfold sorts_before, score_desc_jm.
  destruct (Qeq_bool (jm_matchScore a) (jm_matchScore b)) eqn:E; intros H.
  - apply Qeq_bool_eq in E; rewrite E; apply Qle_refl.
  - apply Qlt_le_weak, Qnot_le_lt; intros H'; apply Qle_bool_iff in H'; congruence.
Qed.

Lemma insert_match_perm (m : JobMatch) (l : list JobMatch) :
  Permutation (insert_match m l) (m :: l).
Proof.
  induction l as [|x l IH]; simpl; [reflexivity|].
  destruct (sorts_before m x); [reflexivity|].
  eapply perm_trans; [apply perm_skip, IH|apply perm_swap].
Qed.

Lemma sort_matches_perm (l : list JobMatch) : Permutation (sort_matches l) l.
Proof.
  induction l as [|m l IH]; simpl; [reflexivity|].
  eapply perm_trans; [apply insert_match_perm|apply perm_skip, IH].
Qed.

Lemma insert_match_sorted (m : JobMatch) (l : list JobMatch) :
  Sorted score_desc_jm l -> Sorted score_desc_jm (insert_match m l).
Proof.
  induction l as [|x l IH]; simpl; intros Hs; [repeat constructor|].
  destruct (sorts_before m x) eqn:E.
  - constructor; [exact Hs|constructor; apply sorts_before_true, E].
  - apply Sorted_inv in Hs as [Hs Hh]; constructor; [apply IH, Hs|].
    apply sorts_before_false in E.
    destruct l as [|y l]; simpl; [constructor; exact E|].
    destruct (sorts_before m y); constructor; [exact E|].
    inversion Hh; assumption.
Qed.

Lemma sort_matches_sorted (l : list JobMatch) : Sorted score_desc_jm (sort_matches l).
Proof. induction l as [|m l IH]; simpl; [constructor|apply insert_match_sorted, IH]. Qed.

Lemma getJobMatches_spec (u : nat) (st sv hd : option string) (ms : option (option Q))
    (s : Store) (l : list JobMatch) :
  getJobMatches (Some u) st sv hd ms s = Ok l ->
  Sorted score_desc_jm l /\
  (forall m, In m l <-> In m (matches s) /\ query_ok u st sv hd ms m = true) /\
  (forall m, In m l ->
     jm_userId m = u /\
     (is_true_str hd = false -> jm_isHidden m = false) /\
     (is_true_str sv = true -> jm_isSaved m = true) /\
     (forall q, ms = Some (Some q) -> (q <= jm_matchScore m)%Q)).
Proof.
  unfold getJobMatches; intros H.
  assert (El : l = sort_matches (filter (query_ok u st sv hd ms) (matches s)))
    by (destruct ms as [[q|]|]; inversion H; reflexivity).
  subst l; clear H.
  assert (Hin : forall m, In m (sort_matches (filter (query_ok u st sv hd ms) (matches s)))
                          <-> In m (matches s) /\ query_ok u st sv hd ms m = true).
  { intros m; rewrite <- filter_In; split; apply Permutation_in;
      [|apply Permutation_sym]; apply sort_matches_perm. }
  split; [apply sort_matches_sorted|split; [exact Hin|]].
  intros m Hm; apply Hin in Hm as [_ Hq]; unfold query_ok in Hq.
  repeat rewrite andb_true_iff in Hq; destruct Hq as ((((Hu & _) & Hs) & Hh) & Hm).
  apply Nat.eqb_eq in Hu; split; [exact Hu|split; [|split]].
  - intros E; rewrite E in Hh; destruct (jm_isHidden m); [discriminate|reflexivity].
  - intros E; rewrite E in Hs; exact Hs.
  - intros q ->; apply Qle_bool_iff, Hm.
Qed.

(** [getJobMatches] lists exactly the caller's rows that pass the query
    filters, ordered by decreasing [matchScore]: no row of another user,
    no hidden row unless [hidden=true], only saved rows when [saved=true],
    and no row below a numeric [minScore]. *)
Theorem getJobMatches_listing (u : nat) (st sv hd : option string) (ms : option (option Q))
    (s : Store) (l : list JobMatch) :
  getJobMatches (Some u) st sv hd ms s = Ok l ->
  Sorted score_desc_jm l /\
  (forall m, In m l <-> In m (matches s) /\ query_ok u st sv hd ms m = true) /\
  (forall m, In m l ->
     jm_userId m = u /\
     (is_true_str hd = false -> jm_isHidden m = false) /\
     (is_true_str sv = true -> jm_isSaved m = true) /\
     (forall q, ms = Some (Some q) -> (q <= jm_matchScore m)%Q)).
Proof. exact (getJobMatches_spec u st sv hd ms s l). Qed.

Lemma getJobMatches_listing_witness :
  let s := mkStore [mkJM 1 7 "A" 50 moderate false None not_applied None false false;
                    mkJM 2 7 "B" 90 excellent false None not_applied None false true;
                    mkJM 3 7 "C" 70 good false None not_applied None true false;
                    mkJM 4 8 "D" 95 excellent false None not_applied None false false] [] 5 in
  getJobMatches (Some 7) None None None (Some (Some 60%Q)) s
  = Ok [mkJM 3 7 "C" 70 good false None not_applied None true false] /\
  Sorted score_desc_jm [mkJM 3 7 "C" 70 good false None not_applied None true false].
Proof.
  intros s.
  assert (H : getJobMatches (Some 7) None None None (Some (Some 60%Q)) s
              = Ok [mkJM 3 7 "C" 70 good false None not_applied None true false])
    by (vm_compute; reflexivity).
  split; [exact H|exact (proj1 (getJobMatches_listing 7 None None None _ s _ H))].
Defined.

Lemma hide_owned_hidden (u id : nat) (ms : list JobMatch) (m : JobMatch) :
  In m (map (fun m => if owned u id m then set_flags jm_isSaved (fun _ => true) m else m) ms) ->
  owned u id m = true -> jm_isHidden m = true.
Proof.
  intros Hm Ho; apply in_map_iff in Hm as (x & <- & _).
  destruct (owned u id x) eqn:E; [reflexivity|rewrite E in Ho; discriminate].
Qed.

(** [hideJob] is idempotent, and a hidden job no longer appears in any
    [getJobMatches] listing unless [hidden=true] is asked for, in which
    case it is still listed: the row is kept, only flagged. *)
Theorem hideJob_hides (u id : nat) (s s1 : Store) :
  hideJob (Some u) id s = Ok s1 ->
  hideJob (Some u) id s1 = Ok s1 /\
  (forall st sv hd ms l, is_true_str hd = false ->
     getJobMatches (Some u) st sv hd ms s1 = Ok l -> forall m, In m l -> owned u id m = false) /\
  (forall l, getJobMatches (Some u) None None (Some "true"%string) None s1 = Ok l ->
     forall m, In m (matches s1) -> owned u id m = true -> In m l).
Proof.
  intros H; unfold hideJob, find_one_and_update in H.
  destruct (find (owned u id) (matches s)) as [m0|] eqn:F; [|discriminate].
  inversion H; subst s1; clear H.
  set (g := fun m => if owned u id m then set_flags jm_isSaved (fun _ => true) m else m).
  assert (Hhid : forall m, In m (map g (matches s)) -> owned u id m = true -> jm_isHidden m = true)
    by apply hide_owned_hidden.
  split; [|split].
  - unfold hideJob, find_one_and_update; cbn [matches analytics next_id].
    destruct (find (owned u id) (map g (matches s))) as [m1|] eqn:F1.
    + rewrite map_map; f_equal; f_equal; apply map_ext; intros m; unfold g.
      destruct (owned u id m) eqn:E; [rewrite set_flags_owned, E; destruct m; reflexivity|rewrite E; reflexivity].
    + exfalso; revert F1; apply find_owned_map; [intros; reflexivity|congruence].
  - intros st sv hd ms l Hhd Hl m Hm.
    destruct (getJobMatches_spec u st sv hd ms _ l Hl) as (_ & Hin & Hp).
    destruct (Hp m Hm) as (_ & Hh & _); specialize (Hh Hhd).
    apply Hin in Hm as [Hm _]; cbn [matches] in Hm.
    destruct (owned u id m) eqn:E; [|reflexivity].
    rewrite (Hhid m Hm E) in Hh; discriminate.
  - intros l Hl m Hm Ho.
    destruct (getJobMatches_spec u _ _ _ _ _ l Hl) as (_ & Hin & _).
    apply Hin; split; [exact Hm|].
    unfold owned in Ho; apply andb_true_iff in Ho as [_ Ho]; unfold query_ok; rewrite Ho.
    reflexivity.
Qed.

Lemma hideJob_hides_witness :
  let s := mkStore [mkJM 1 7 "A" 50 moderate false None not_applied None false false] [] 2 in
  hideJob (Some 7) 1 s = Ok (store_of (hideJob (Some 7) 1 s)) /\
  hideJob (Some 7) 1 (store_of (hideJob (Some 7) 1 s)) = Ok (store_of (hideJob (Some 7) 1 s)).
Proof.
  intros s.
  assert (H : hideJob (Some 7) 1 s = Ok (store_of (hideJob (Some 7) 1 s)))
    by (vm_compute; reflexivity).
  split; [exact H|exact (proj1 (hideJob_hides 7 1 s _ H))].
Defined.

(** [updateApplicationStatus] only sets [applicationStatus] (and the notes):
    it never changes [applied], [appliedDate] or the user's analytics, so a
    row can read [applicationStatus = 'applied'] with [applied = false] and
    no [appliedDate], without being counted in [totalJobsApplied]. *)
Theorem updateApplicationStatus_keeps_applied (u id : nat) (st : AppStatus) (notes : option string)
    (s s' : Store) :
  updateApplicationStatus (Some u) id (Some st) notes s = Ok s' ->
  analytics s' = analytics s /\
  map (fun m => (jm_id m, jm_applied m, jm_appliedDate m)) (matches s')
  = map (fun m => (jm_id m, jm_applied m, jm_appliedDate m)) (matches s) /\
  (forall m, In m (matches s') -> owned u id m = true -> jm_applicationStatus m = st).
Proof.
  unfold updateApplicationStatus, find_one_and_update.
  destruct (find (owned u id) (matches s)); [|discriminate].
  intros H; inversion H; subst s'; clear H; cbn [matches analytics].
  split; [reflexivity|split].
  - rewrite map_map; apply map_ext; intros m; destruct (owned u id m); reflexivity.
  - intros m Hm Ho; apply in_map_iff in Hm as (x & <- & _).
    destruct (owned u id x) eqn:E; [reflexivity|rewrite E in Ho; discriminate].
Qed.

Lemma updateApplicationStatus_keeps_applied_witness :
  let s := mkStore [mkJM 1 7 "A" 50 moderate false None not_applied None false false]
                   [mkAn 7 1 0 None] 2 in
  updateApplicationStatus (Some 7) 1 (Some applied) None s
  = Ok (mkStore [mkJM 1 7 "A" 50 moderate false None applied None false false] [mkAn 7 1 0 None] 2) /\
  analytics (mkStore [mkJM 1 7 "A" 50 moderate false None applied None false false] [mkAn 7 1 0 None] 2)
  = analytics s.
Proof.
  intros s.
  assert (H : updateApplicationStatus (Some 7) 1 (Some applied) None s
    = Ok (mkStore [mkJM 1 7 "A" 50 moderate false None applied None false false] [mkAn 7 1 0 None] 2))
    by reflexivity.
  split; [exact H|exact (proj1 (updateApplicationStatus_keeps_applied 7 1 applied None s _ H))].
Defined.

End JobExtra.

Module ResumeDataExtra.
Import ResumeData.

Lemma nonempty_true (s : string) : nonempty s = true -> s <> ""%string.
Proof.
  unfold nonempty; intros H E; subst s; discriminate.
Qed.

(** [analyzeResume] always yields a non-empty [name]: the model's name when
    it is a non-empty string, otherwise (also when the model call fails and
    the fallback parser runs) the name [extractName] finds in the raw text
    when it is non-empty, otherwise ['Unknown']. It also yields a defined
    [skills] list: the model's list when it is non-empty, otherwise
    [extractSkills] of the raw text. *)
Theorem analyzeResume_name_skills xN xSu xSk xE xEd (llm : option StructuredResume) (raw : string) :
  let sr := analyzeResume xN xSu xSk xE xEd llm raw in
  let regex_name := match xN raw with
                    | Some n => if nonempty n then n else "Unknown"%string
                    | None => "Unknown"%string
                    end in
  sr_name sr = Some (match llm with
                     | Some d => match sr_name d with
                                 | Some n => if nonempty n then n else regex_name
                                 | None => regex_name
                                 end
                     | None => regex_name
                     end) /\
  (exists n, sr_name sr = Some n /\ n <> ""%string) /\
  (forall d, llm = Some d -> truthy_str (sr_name d) = true -> sr_name sr = sr_name d) /\
  sr_skills sr = Some (match llm with
                       | Some d => match sr_skills d with
                                   | Some (x :: l) => x :: l
                                   | _ => xSk raw
                                   end
                       | None => xSk raw
                       end).
Proof.
  assert (Hfb : forall o : option string,
             (match o with Some n => if nonempty n then n else "Unknown"%string
                         | None => "Unknown"%string end) <> ""%string).
  { intros [n|]; [|discriminate]; destruct (nonempty n) eqn:E; [apply nonempty_true, E|discriminate]. }
  intros sr regex_name; subst sr regex_name; destruct llm as [d|]; simpl.
  - split; [unfold truthy_str; destruct (sr_name d) as [n|]; [destruct (nonempty n)|]; reflexivity|].
    split; [|split].
    + destruct (truthy_str (sr_name d)) eqn:E.
      * destruct (sr_name d) as [n|]; [|discriminate].
        exists n; split; [reflexivity|apply nonempty_true, E].
      * eexists; split; [reflexivity|apply Hfb].
    + intros d' Hd Ht; inversion Hd; subst d'; rewrite Ht; reflexivity.
    + destruct (sr_skills d) as [[|x l]|]; reflexivity.
  - split; [reflexivity|split; [|split]].
    + eexists; split; [reflexivity|apply Hfb].
    + intros d' Hd; discriminate.
    + reflexivity.
Qed.

Lemma analyzeResume_name_skills_witness :
  let sr := analyzeResume (fun _ => Some ""%string) (fun _ => None) (fun _ => ["SQL"%string])
                          (fun _ => []) (fun _ => [])
                          (Some (mkSR (Some "Ada"%string) None (Some []) None None)) "raw"%string in
  sr_name sr = Some "Ada"%string /\ sr_skills sr = Some ["SQL"%string].
Proof.
  intros sr.
  destruct (analyzeResume_name_skills (fun _ => Some ""%string) (fun _ => None) (fun _ => ["SQL"%string])
              (fun _ => []) (fun _ => [])
              (Some (mkSR (Some "Ada"%string) None (Some []) None None)) "raw"%string)
    as (_ & _ & Hn & Hs).
  split; [exact (Hn _ eq_refl eq_refl)|exact Hs].
Defined.

Lemma forallb_existsb_negb {A} (f : A -> bool) (l : list A) :
  existsb (fun x => negb (f x)) l = true -> forallb f l = false.
Proof.
  induction l as [|x l IH]; simpl; [discriminate|].
  destruct (f x); simpl; auto.
Qed.

(** When the model returns an experience entry without [company] or [role]
    (or an education entry without [institution]), [reanalyzeResume] fails
    with 500 and stores nothing: such entries never reach the document. *)
Theorem reanalyzeResume_rejects_invalid xN xSu xSk xE xEd
    (uid id : nat) (d : StructuredResume) (rs : list ResumeDoc) (r : ResumeDoc) :
  find_resume uid id rs = Some r ->
  existsb (fun e => negb (valid_experience e)) (or_empty (sr_experience d)) = true \/
  existsb (fun e => negb (valid_education e)) (or_empty (sr_education d)) = true ->
  reanalyzeResume xN xSu xSk xE xEd (Some uid) id (Some d) rs = Err 500 rs.
Proof.
  intros Hf Hbad; unfold reanalyzeResume; rewrite Hf.
  replace (valid_resume _) with false; [reflexivity|].
  unfold valid_resume, replace_structured; cbn [rd_experience rd_education analyzeResume
    sr_experience sr_education].
  destruct Hbad as [Hb|Hb].
  - replace (or_empty (match sr_experience d with Some l => Some l | None => Some [] end))
      with (or_empty (sr_experience d)) by (destruct (sr_experience d); reflexivity).
    rewrite (forallb_existsb_negb _ _ Hb); reflexivity.
  - replace (or_empty (match sr_education d with Some l => Some l | None => Some [] end))
      with (or_empty (sr_education d)) by (destruct (sr_education d); reflexivity).
    rewrite (forallb_existsb_negb _ _ Hb), andb_false_r; reflexivity.
Qed.

Lemma reanalyzeResume_rejects_invalid_witness :
  let r := mkRD 1 7 "raw"%string None [] [] [] in
  let d := mkSR None None None (Some [mkExp ""%string "Dev"%string None]) None in
  find_resume 7 1 [r] = Some r /\
  reanalyzeResume (fun _ => None) (fun _ => None) (fun _ => []) (fun _ => []) (fun _ => [])
                  (Some 7) 1 (Some d) [r] = Err 500 [r].
Proof.
  intros r d.
  assert (Hf : find_resume 7 1 [r] = Some r) by reflexivity.
  split; [exact Hf|].
  apply (reanalyzeResume_rejects_invalid _ _ _ _ _ 7 1 d [r] r Hf).
  left; reflexivity.
Defined.

End ResumeDataExtra.

Module InterviewExtra.
Import Interview.

Lemma pre_save_fields (now : nat) (b : bool) (q : Prep) :
  p_id (pre_save now b q) = p_id q /\
  p_userId (pre_save now b q) = p_userId q /\
  p_questions (pre_save now b q) = p_questions q /\
  p_generatedAt (pre_save now b q) = p_generatedAt q /\
  p_sessions (pre_save now b q) = p_sessions q.
Proof.
  unfold pre_save, advance_status, recompute_derived.
  destruct b; repeat (destruct (_ && _)); repeat split.
Qed.

Lemma pre_save_percent (now : nat) (b : bool) (q : Prep) :
  percentComplete (p_progress (pre_save now b q))
  = if b then (if 0 <? length (p_questions q)
               then js_percent (completed_count (p_questions q)) (length (p_questions q)) else 0%Z)
    else percentComplete (p_progress q).
Proof.
  unfold pre_save.
  destruct (InterviewFacts.advance_fixed now (recompute_derived b q)) as (_ & _ & Hp & _).
  rewrite Hp; destruct b; reflexivity.
Qed.

Lemma count_all {A} (f : A -> bool) (l : list A) :
  length (filter f l) = length l <-> forallb f l = true.
Proof.
  induction l as [|x l IH]; simpl; [tauto|].
  pose proof (filter_length_le f l).
  destruct (f x); simpl.
  - rewrite <- IH; lia.
  - split; intros H'; [lia|discriminate].
Qed.

Lemma count_none {A} (f : A -> bool) (l : list A) :
  length (filter f l) = 0 <-> forallb (fun x => negb (f x)) l = true.
Proof.
  induction l as [|x l IH]; simpl; [tauto|].
  destruct (f x); simpl; [split; discriminate|exact IH].
Qed.

(** The double-precision percentage is 100 exactly for a full count and 0
    exactly for a zero count, for every total below 200 (checked
    exhaustively). *)
Lemma js_percent_edges (c t : nat) :
  0 < t < 200 -> c <= t ->
  (js_percent c t = 100%Z <-> c = t) /\ (js_percent c t = 0%Z <-> c = 0).
Proof.
  intros Ht Hc.
  assert (Hall : forallb (fun t => forallb (fun c =>
                   Bool.eqb (Z.eqb (js_percent c t) 100) (c =? t) &&
                   Bool.eqb (Z.eqb (js_percent c t) 0) (c =? 0))
                                           (seq 0 (S t)))
                         (seq 1 199) = true) by (vm_compute; reflexivity).
  rewrite forallb_forall in Hall.
  specialize (Hall t (proj2 (in_seq 199 1 t) ltac:(lia))).
  rewrite forallb_forall in Hall.
  specialize (Hall c (proj2 (in_seq (S t) 0 c) ltac:(lia))).
  apply andb_true_iff in Hall as [H1 H2]; apply eqb_prop in H1, H2.
  rewrite <- Z.eqb_eq, <- Nat.eqb_eq, H1, <- Z.eqb_eq, <- (Nat.eqb_eq c 0), H2.
  tauto.
Qed.

Lemma update_first_split (qid : nat) (f : Question -> Question) (qs : list Question) (q : Question) :
  find_question qid qs = Some q ->
  exists pre post, qs = pre ++ q :: post /\ q_id q = qid /\
    Forall (fun x => q_id x <> qid) pre /\ update_first qid f qs = pre ++ f q :: post.
Proof.
  induction qs as [|x qs IH]; simpl; [discriminate|].
  destruct (q_id x =? qid) eqn:E.
  - intros H; inversion H; subst x; apply Nat.eqb_eq in E.
    exists [], qs; repeat split; auto.
  - intros H; destruct (IH H) as (pre & post & -> & Hq & Hpre & Hu).
    exists (x :: pre), post; repeat split; auto.
    + constructor; [apply Nat.eqb_neq, E|exact Hpre].
    + rewrite Hu; reflexivity.
Qed.

Lemma find_question_none (qid : nat) (qs : list Question) :
  Forall (fun x => q_id x <> qid) qs -> find_question qid qs = None.
Proof.
  induction 1 as [|x qs Hx _ IH]; simpl; [reflexivity|].
  apply Nat.eqb_neq in Hx; rewrite Hx; exact IH.
Qed.

Lemma uqp_questions (now qid : nat) pr cf nt (p p' : Prep) :
  updateQuestionProgress now qid pr cf nt p = Ok p' ->
  exists q, find_question qid (p_questions p) = Some q /\
    p_questions p' = update_first qid (update_question pr cf nt) (p_questions p).
Proof.
  unfold updateQuestionProgress.
  destruct (find_question qid (p_questions p)) as [q|] eqn:Hf; [|discriminate].
  intros H; inversion H; subst p'; clear H.
  exists q; split; [reflexivity|].
  rewrite (proj1 (proj2 (proj2 (pre_save_fields _ _ _)))).
  repeat (destruct (_ && _)); destruct (Z.eqb _ 100); reflexivity.
Qed.

(** [updateQuestionProgress] answers 404 and changes nothing when no
    question has the id; otherwise it changes only the first question with
    that id, leaving every other question as it was. Marking a question
    practiced increments its [practicedCount]; [practiced: false] clears the
    flag but keeps the count. *)
Theorem updateQuestionProgress_local (now qid : nat) pr cf nt (p : Prep) :
  (Forall (fun x => q_id x <> qid) (p_questions p) ->
   updateQuestionProgress now qid pr cf nt p = Err 404 p) /\
  (forall p', updateQuestionProgress now qid pr cf nt p = Ok p' ->
   exists pre q post,
     p_questions p = pre ++ q :: post /\ q_id q = qid /\
     Forall (fun x => q_id x <> qid) pre /\
     p_questions p' = pre ++ update_question pr cf nt q :: post /\
     q_id (update_question pr cf nt q) = qid /\
     q_practiced (update_question pr cf nt q)
       = match pr with Some b => b | None => q_practiced q end /\
     q_practicedCount (update_question pr cf nt q)
       = match pr with Some true => S (q_practicedCount q) | _ => q_practicedCount q end).
Proof.
  split.
  - intros H; unfold updateQuestionProgress; rewrite find_question_none by exact H; reflexivity.
  - intros p' H; destruct (uqp_questions _ _ _ _ _ _ _ H) as (q & Hf & Hq).
    destruct (update_first_split qid (update_question pr cf nt) _ q Hf)
      as (pre & post & Hp & Hid & Hpre & Hu).
    exists pre, q, post; repeat split; auto; try congruence.
    all: destruct pr as [[]|]; simpl; congruence.
Qed.

Lemma updateQuestionProgress_local_witness :
  let p := sample_prep 3 1 generated in
  Forall (fun x => q_id x <> 9) (p_questions p) /\
  updateQuestionProgress 5 9 (Some true) None None p = Err 404 p /\
  updateQuestionProgress 5 1 (Some true) None None p
    = Ok (prep_of (updateQuestionProgress 5 1 (Some true) None None p)) /\
  exists pre q post,
     p_questions p = pre ++ q :: post /\ q_id q = 1 /\
     Forall (fun x => q_id x <> 1) pre /\
     p_questions (prep_of (updateQuestionProgress 5 1 (Some true) None None p))
       = pre ++ update_question (Some true) None None q :: post /\
     q_id (update_question (Some true) None None q) = 1 /\
     q_practiced (update_question (Some true) None None q) = true /\
     q_practicedCount (update_question (Some true) None None q) = S (q_practicedCount q).
Proof.
  intros p.
  assert (Hn : Forall (fun x => q_id x <> 9) (p_questions p))
    by (repeat constructor; discriminate).
  assert (Hok : updateQuestionProgress 5 1 (Some true) None None p
                = Ok (prep_of (updateQuestionProgress 5 1 (Some true) None None p)))
    by (vm_compute; reflexivity).
  split; [exact Hn|split; [exact (proj1 (updateQuestionProgress_local 5 9 (Some true) None None p) Hn)|]].
  split; [exact Hok|].
  exact (proj2 (updateQuestionProgress_local 5 1 (Some true) None None p) _ Hok).
Defined.

(** After [updateQuestionProgress] on a prep of fewer than 200 questions,
    [percentComplete] is 100 exactly when every question is practiced (and
    the prep is then [completed]), and 0 exactly when none is. *)
Theorem updateQuestionProgress_percent_edges (now qid : nat) pr cf nt (p p' : Prep) :
  updateQuestionProgress now qid pr cf nt p = Ok p' ->
  length (p_questions p) < 200 ->
  (percentComplete (p_progress p') = 100%Z <-> forallb q_practiced (p_questions p') = true) /\
  (percentComplete (p_progress p') = 0%Z <->
     forallb (fun q => negb (q_practiced q)) (p_questions p') = true) /\
  (forallb q_practiced (p_questions p') = true -> p_status p' = completed).
Proof.
  intros H Hlt.
  destruct (uqp_questions _ _ _ _ _ _ _ H) as (q & Hf & Hq).
  destruct (InterviewFacts.uqp_shape _ _ _ _ _ _ _ H) as (p3 & b & -> & _ & Hpos & Hpct & _).
  assert (Hq3 : p_questions (pre_save now b p3) = p_questions p3)
    by apply (pre_save_fields now b p3).
  assert (Hpp : percentComplete (p_progress (pre_save now b p3))
                = js_percent (completed_count (p_questions p3)) (length (p_questions p3))).
  { rewrite pre_save_percent; destruct b; [|exact Hpct].
    replace (0 <? length (p_questions p3)) with true by (symmetry; apply Nat.ltb_lt, Hpos).
    reflexivity. }
  assert (Hl : length (p_questions p3) < 200)
    by (rewrite <- Hq3, Hq, InterviewFacts.update_first_length; exact Hlt).
  assert (Hc : completed_count (p_questions p3) <= length (p_questions p3))
    by apply filter_length_le.
  destruct (js_percent_edges _ _ (conj Hpos Hl) Hc) as [E100 E0].
  rewrite Hq3, Hpp; unfold completed_count, count_by in *.
  rewrite <- count_all, <- count_none, E100, E0.
  split; [tauto|split; [tauto|]].
  intros Hall; rewrite <- E100, <- Hpp in Hall.
  unfold pre_save in *.
  destruct (InterviewFacts.advance_reaches_100 now (recompute_derived b p3)) as [Hs _]; [|exact Hs].
  destruct (InterviewFacts.advance_fixed now (recompute_derived b p3)) as (_ & _ & Hp & _).
  rewrite <- Hp; exact Hall.
Qed.

Lemma updateQuestionProgress_percent_edges_witness :
  let p := sample_prep 3 2 in_progress in
  let p' := prep_of (updateQuestionProgress 5 2 (Some true) None None p) in
  updateQuestionProgress 5 2 (Some true) None None p = Ok p' /\
  length (p_questions p) < 200 /\
  percentComplete (p_progress p') = 100%Z /\ p_status p' = completed.
Proof.
  intros p p'.
  assert (Hok : updateQuestionProgress 5 2 (Some true) None None p = Ok p')
    by (vm_compute; reflexivity).
  assert (Hl : length (p_questions p) < 200) by (vm_compute; lia).
  destruct (updateQuestionProgress_percent_edges 5 2 (Some true) None None p p' Hok Hl)
    as ([_ H100] & _ & Hst).
  assert (Hall : forallb q_practiced (p_questions p') = true) by (vm_compute; reflexivity).
  split; [exact Hok|split; [exact Hl|split; [exact (H100 Hall)|exact (Hst Hall)]]].
Defined.

Lemma rps_fields (now a : nat) (d : Z) (c : option Z) (p p' : Prep) :
  recordPracticeSession now a d c p = Ok p' ->
  p_questions p' = p_questions p /\ p_stats p' = p_stats p /\
  questionsCompleted (p_progress p') = questionsCompleted (p_progress p) /\
  totalQuestions (p_progress p') = totalQuestions (p_progress p) /\
  percentComplete (p_progress p') = percentComplete (p_progress p) /\
  lastPracticedAt (p_progress p') = Some now /\
  totalPracticeTime (p_progress p') = (totalPracticeTime (p_progress p) + d)%Z /\
  length (p_sessions p') = S (length (p_sessions p)).
Proof.
  unfold recordPracticeSession.
  destruct (_ || _); [discriminate|].
  destruct (valid_confidences _); [|discriminate].
  intros H; inversion H; subst p'; clear H.
  unfold pre_save; cbn [recompute_derived].
  match goal with |- context [advance_status now ?q] =>
    destruct (InterviewFacts.advance_fixed now q) as (Hq & Hs & Hp & Hss) end.
  rewrite Hq, Hs, Hp, Hss; cbn.
  rewrite length_app; simpl; repeat split; lia.
Qed.

(** [recordPracticeSession] answers 400 when [questionsAttempted] or
    [duration] is 0. Otherwise it leaves the questions, their statistics and
    the completion counters alone, sets [lastPracticedAt], adds [duration]
    to [totalPracticeTime] (a negative duration is accepted and lowers it)
    and appends one session. *)
Theorem recordPracticeSession_effects (now a : nat) (d : Z) (c : option Z) (p : Prep) :
  (a = 0 \/ d = 0%Z -> recordPracticeSession now a d c p = Err 400 p) /\
  (forall p', recordPracticeSession now a d c p = Ok p' ->
     p_questions p' = p_questions p /\ p_stats p' = p_stats p /\
     questionsCompleted (p_progress p') = questionsCompleted (p_progress p) /\
     totalQuestions (p_progress p') = totalQuestions (p_progress p) /\
     percentComplete (p_progress p') = percentComplete (p_progress p) /\
     lastPracticedAt (p_progress p') = Some now /\
     totalPracticeTime (p_progress p') = (totalPracticeTime (p_progress p) + d)%Z /\
     length (p_sessions p') = S (length (p_sessions p))).
Proof.
  split; [|apply rps_fields].
  intros [->| ->]; unfold recordPracticeSession; [reflexivity|].
  rewrite orb_true_r; reflexivity.
Qed.

Lemma recordPracticeSession_effects_witness :
  let p := sample_prep 2 0 generated in
  let p' := prep_of (recordPracticeSession 5 1 (-5) (Some 50%Z) p) in
  recordPracticeSession 5 0 30 None p = Err 400 p /\
  recordPracticeSession 5 1 (-5) (Some 50%Z) p = Ok p' /\
  totalPracticeTime (p_progress p') = (-5)%Z.
Proof.
  intros p p'.
  assert (Hok : recordPracticeSession 5 1 (-5) (Some 50%Z) p = Ok p') by (vm_compute; reflexivity).
  split; [exact (proj1 (recordPracticeSession_effects 5 0 30 None p) (or_introl eq_refl))|].
  split; [exact Hok|].
  rewrite (proj1 (proj2 (proj2 (proj2 (proj2 (proj2 (proj2
             (proj2 (recordPracticeSession_effects 5 1 (-5) (Some 50%Z) p) p' Hok)))))))).
  reflexivity.
Defined.

(** The statistics the [pre('save')] hook writes after a change to
    [questionsJson] partition the questions twice: the five per-type counts
    and the three per-difficulty counts each add up to [total], which is the
    number of questions. *)
Theorem questionStats_partition (now : nat) (p : Prep) :
  let st := p_stats (pre_save now true p) in
  st_total st = length (p_questions (pre_save now true p)) /\
  st_total st = st_technical st + st_behavioral st + st_systemDesign st + st_situational st
                + st_coding st /\
  st_total st = st_easy st + st_medium st + st_hard st.
Proof.
  intros st; subst st; unfold pre_save.
  destruct (InterviewFacts.advance_fixed now (recompute_derived true p)) as (Hq & Hs & _).
  rewrite Hq, Hs; cbn.
  unfold count_by; induction (p_questions p) as [|q qs IH]; [cbn; lia|].
  destruct IH as (IH1 & IH2 & IH3).
  destruct q as [? [] [] ? ? ? ?]; cbn [filter length is_type is_difficulty q_type q_difficulty] in *;
    lia.
Qed.

Lemma consistent_ext (a b : Prep) :
  p_questions a = p_questions b -> p_stats a = p_stats b -> p_progress a = p_progress b ->
  prep_consistent a -> prep_consistent b.
Proof. unfold prep_consistent; intros -> -> ->; exact id. Qed.

Lemma advance_consistent (now : nat) (q : Prep) :
  prep_consistent q -> prep_consistent (advance_status now q).
Proof.
  destruct (InterviewFacts.advance_fixed now q) as (Hq & Hs & Hp & _).
  apply consistent_ext; congruence.
Qed.

Lemma update_first_id (qid : nat) (f : Question -> Question) (qs : list Question) :
  (forall q, f q = q) -> update_first qid f qs = qs.
Proof.
  intros Hf; induction qs as [|q qs IH]; simpl; [reflexivity|].
  destruct (q_id q =? qid); [rewrite Hf|rewrite IH]; reflexivity.
Qed.

Lemma uqp_consistent (now qid : nat) pr cf nt (p p' : Prep) :
  prep_consistent p -> updateQuestionProgress now qid pr cf nt p = Ok p' -> prep_consistent p'.
Proof.
  intros Hc; unfold updateQuestionProgress.
  destruct (find_question qid (p_questions p)) as [q|] eqn:Hf; [|discriminate].
  intros H; inversion H; subst p'; clear H.
  destruct (question_changed pr cf nt q) eqn:Ech; [apply InterviewFacts.pre_save_consistent|].
  unfold pre_save; cbn [recompute_derived]; apply advance_consistent.
  rewrite (InterviewFacts.update_first_nochange qid _ _ q Hf
             (InterviewFacts.update_question_nochange pr cf nt q Ech)).
  pose proof (InterviewFacts.find_question_nonempty _ _ _ Hf) as Hpos.
  destruct Hc as (Hs & Ht & Htq & Hqc & Hpct).
  set (p2 := set_progress _ _).
  assert (H2 : prep_consistent p2).
  { unfold p2, prep_consistent;
      cbn [p_questions p_stats p_progress set_progress set_questions totalQuestions
           questionsCompleted percentComplete].
    replace (0 <? length (p_questions p)) with true by (symmetry; apply Nat.ltb_lt, Hpos).
    repeat split; first [assumption|reflexivity]. }
  destruct (Z.eqb _ 100); [|destruct (_ && _)];
    (eapply consistent_ext; [| | |exact H2]; reflexivity).
Qed.

Lemma rps_consistent (now a : nat) (d : Z) (c : option Z) (p p' : Prep) :
  prep_consistent p -> recordPracticeSession now a d c p = Ok p' -> prep_consistent p'.
Proof.
  intros Hc H; destruct (rps_fields _ _ _ _ _ _ H) as (Hq & Hs & Hqc & Ht & Hpct & _).
  unfold prep_consistent in *; rewrite Hq, Hs, Hqc, Ht, Hpct; exact Hc.
Qed.

Lemma apply_mutation_err (now : nat) (m : Mutation) (p q : Prep) (e : nat) :
  apply_mutation now m p = Err e q -> q = p.
Proof.
  destruct m as [qid pr cf nt|a d c]; simpl.
  - unfold updateQuestionProgress; destruct (find_question _ _); intros H; inversion H; reflexivity.
  - unfold recordPracticeSession; destruct (_ || _); [intros H; inversion H; reflexivity|].
    destruct (valid_confidences _); intros H; inversion H; reflexivity.
Qed.

(** Any sequence of [updateQuestionProgress] and [recordPracticeSession]
    requests keeps [questionStats], [questionsCompleted], [totalQuestions]
    and [percentComplete] in agreement with [questionsJson], starting from a
    prep where they agree (as every generated prep does). *)
Theorem prep_consistent_run (ms : list (nat * Mutation)) (p : Prep) :
  prep_consistent p -> prep_consistent (run_mutations ms p).
Proof.
  revert p; induction ms as [|[now m] ms IH]; simpl; intros p Hc; [exact Hc|].
  apply IH.
  destruct (apply_mutation now m p) as [p'|e q] eqn:E; simpl.
  - destruct m; simpl in E; [eapply uqp_consistent|eapply rps_consistent]; eassumption.
  - apply apply_mutation_err in E; subst q; exact Hc.
Qed.

Lemma prep_consistent_run_witness :
  let p := sample_prep 3 1 generated in
  let ms := [(5, MUpdateQuestion 1 (Some true) None None); (6, MRecordSession 2 30 (Some 80%Z));
             (7, MUpdateQuestion 9 (Some true) None None); (8, MUpdateQuestion 0 None None None);
             (9, MUpdateQuestion 0 (Some false) None None)] in
  prep_consistent p /\ prep_consistent (run_mutations ms p).
Proof.
  intros p ms.
  assert (Hc : prep_consistent p) by (unfold prep_consistent; vm_compute; repeat split).
  split; [exact Hc|exact (prep_consistent_run ms p Hc)].
Defined.

Lemma replace_prep_fresh (d : Prep) (ps : list Prep) :
  Forall (fun x => p_id x < p_id d) ps -> replace_prep d ps = ps.
Proof.
  induction 1 as [|x ps Hx _ IH]; simpl; [reflexivity|].
  replace (p_id x =? p_id d) with false by (symmetry; apply Nat.eqb_neq; lia).
  rewrite IH; reflexivity.
Qed.

(** A successful [generateInterview] (fewer than 200 generated questions)
    adds exactly one prep, with the next id, owned by the caller, holding
    one unpracticed question per generated one, status [generated],
    [generatedAt] set, no [completedAt], [percentComplete] 0, and derived
    fields that agree with its questions. *)
Theorem generateInterview_creates (now uid : nat) (company role : string) (techs : list string)
    (jobMatchId experienceLevel : option string) (gqs : list GenQuestion) (qid0 : nat)
    (st st' : PrepStore) :
  Forall (fun p => p_id p < next_prep_id st) (preps st) ->
  length gqs < 200 ->
  generateInterview now (Some uid) company role (Some techs) jobMatchId experienceLevel
                    (Some gqs) qid0 st = Ok st' ->
  exists d,
    preps st' = preps st ++ [d] /\ next_prep_id st' = S (next_prep_id st) /\
    p_id d = next_prep_id st /\ p_userId d = uid /\
    length (p_questions d) = length gqs /\
    forallb (fun q => negb (q_practiced q)) (p_questions d) = true /\
    p_status d = generated /\ p_generatedAt d = Some now /\ p_completedAt d = None /\
    percentComplete (p_progress d) = 0%Z /\ prep_consistent d.
Proof.
  intros Hfresh Hlen; unfold generateInterview.
  destruct (negb _ || negb _); [discriminate|].
  destruct (negb (create_valid _ _ _ _ _)); [discriminate|].
  destruct (forallb valid_gen_question gqs); [|discriminate].
  intros H; inversion H; subst st'; clear H.
  set (qs := map _ (combine _ gqs)).
  set (doc := mkPrep (next_prep_id st) uid [] empty_stats generating None None empty_progress []).
  set (d2 := set_progress _ _).
  assert (Hlq : length qs = length gqs)
    by (unfold qs; rewrite length_map, length_combine, length_seq, Nat.min_id; reflexivity).
  assert (Hnp : forallb (fun q => negb (q_practiced q)) qs = true).
  { unfold qs; generalize (combine (seq 0 (length gqs)) gqs); intros l.
    induction l as [|[i g] l IH]; [reflexivity|exact IH]. }
  assert (Hcc : completed_count qs = 0) by (apply count_none, Hnp).
  assert (Hp0 : (if 0 <? length qs then js_percent (completed_count qs) (length qs) else 0%Z) = 0%Z).
  { destruct (0 <? length qs) eqn:E; [|reflexivity].
    apply Nat.ltb_lt in E; rewrite Hcc.
    apply (js_percent_edges 0 (length qs)); [lia|lia|reflexivity]. }
  exists (pre_save now true d2).
  destruct (pre_save_fields now true d2) as (Hid & Hu & Hq & Hg & _).
  assert (Hpct : percentComplete (p_progress (pre_save now true d2)) = 0%Z)
    by (rewrite pre_save_percent; exact Hp0).
  assert (Hst : p_status (pre_save now true d2) = generated /\
                p_completedAt (pre_save now true d2) = None).
  { unfold pre_save, advance_status.
    destruct (InterviewFacts.recompute_fixed true d2) as (_ & Hs & Hc & _).
    assert (Hr : percentComplete (p_progress (recompute_derived true d2)) = 0%Z).
    { unfold recompute_derived; cbn; exact Hp0. }
    rewrite Hr, Hs; cbn [Z.eqb Z.ltb Z.compare andb negb status_eqb].
    rewrite Hs, Hc; split; reflexivity. }
  cbn [preps next_prep_id].
  unfold replace_prep at 1; rewrite map_app; cbn [map].
  replace (p_id doc =? p_id (pre_save now true d2)) with true
    by (rewrite Hid; symmetry; apply Nat.eqb_refl).
  fold (replace_prep (pre_save now true d2) (preps st)).
  rewrite replace_prep_fresh by (rewrite Hid; exact Hfresh).
  split; [reflexivity|split; [reflexivity|]].
  rewrite Hid, Hu, Hq, Hg, Hpct; cbn.
  split; [reflexivity|split; [reflexivity|split; [exact Hlq|split; [exact Hnp|]]]].
  destruct Hst as [Hs Hc].
  split; [exact Hs|split; [reflexivity|split; [exact Hc|split; [reflexivity|]]]].
  apply InterviewFacts.pre_save_consistent.
Qed.

Lemma generateInterview_creates_witness :
  let st := mkPS [] 0 in
  let gqs := [mkGQ "Reverse a list" (Some technical) (Some easy) "Lists" "Fold it";
              mkGQ "A conflict you solved" (Some behavioral) (Some hard) "Teamwork" "STAR"] in
  let r := generateInterview 5 (Some 7) "Acme"%string "Dev"%string (Some ["Go"%string])
                             None None (Some gqs) 100 st in
  Forall (fun p => p_id p < next_prep_id st) (preps st) /\ length gqs < 200 /\
  r = Ok (ps_of r) /\ length (preps (ps_of r)) = 1.
Proof.
  intros st gqs r.
  assert (Hf : Forall (fun p => p_id p < next_prep_id st) (preps st)) by constructor.
  assert (Hl : length gqs < 200) by (simpl; lia).
  assert (Hok : r = Ok (ps_of r)) by (vm_compute; reflexivity).
  destruct (generateInterview_creates 5 7 "Acme"%string "Dev"%string ["Go"%string] None None gqs 100 st
              (ps_of r) Hf Hl Hok) as (d & Hd & _).
  split; [exact Hf|split; [exact Hl|split; [exact Hok|rewrite Hd; reflexivity]]].
Defined.

(** [deleteInterviewPrep] answers 404 when the caller owns no prep with the
    id; otherwise it removes exactly one prep, the first one the caller owns
    with that id, and keeps every other prep in order. *)
Theorem deleteInterviewPrep_removes_one (uid id : nat) (st : PrepStore) :
  (forallb (fun p => negb (prep_owned uid id p)) (preps st) = true ->
   deleteInterviewPrep (Some uid) id st = Err 404 st) /\
  (forall st', deleteInterviewPrep (Some uid) id st = Ok st' ->
   exists pre d post,
     preps st = pre ++ d :: post /\ prep_owned uid id d = true /\
     forallb (fun p => negb (prep_owned uid id p)) pre = true /\
     preps st' = pre ++ post /\ next_prep_id st' = next_prep_id st).
Proof.
  split.
  - intros H; unfold deleteInterviewPrep.
    replace (existsb (prep_owned uid id) (preps st)) with false; [reflexivity|].
    symmetry; induction (preps st) as [|p ps IH]; [reflexivity|].
    simpl in *; destruct (prep_owned uid id p); [discriminate|exact (IH H)].
  - intros st'; unfold deleteInterviewPrep.
    destruct (existsb (prep_owned uid id) (preps st)) eqn:E; [|discriminate].
    intros H; inversion H; subst st'; clear H; cbn [preps next_prep_id].
    induction (preps st) as [|p ps IH]; [discriminate|].
    simpl in E |- *; destruct (prep_owned uid id p) eqn:Ep.
    + exists [], p, ps; repeat split; assumption.
    + destruct (IH E) as (pre & d & post & -> & Hd & Hpre & Hs & _).
      exists (p :: pre), d, post; simpl; rewrite Ep, Hpre, Hs; repeat split; assumption.
Qed.

Lemma deleteInterviewPrep_removes_one_witness :
  let a := sample_prep 1 0 generated in
  let st := mkPS [a; a] 1 in
  forallb (fun p => negb (prep_owned 7 3 p)) (preps st) = true /\
  deleteInterviewPrep (Some 7) 3 st = Err 404 st /\
  deleteInterviewPrep (Some 7) 0 st = Ok (mkPS [a] 1) /\
  preps (mkPS [a] 1) = [] ++ [a].
Proof.
  intros a st.
  assert (Hn : forallb (fun p => negb (prep_owned 7 3 p)) (preps st) = true) by reflexivity.
  assert (Hok : deleteInterviewPrep (Some 7) 0 st = Ok (mkPS [a] 1)) by reflexivity.
  destruct (deleteInterviewPrep_removes_one 7 0 st) as [_ Hdel].
  destruct (Hdel _ Hok) as (pre & d & post & _ & _ & _ & Hs & _).
  split; [exact Hn|split; [exact (proj1 (deleteInterviewPrep_removes_one 7 3 st) Hn)|]].
  split; [exact Hok|reflexivity].
Defined.

End InterviewExtra.
